(** * StockTicker: a shallow embedding of the ESP32 stock ticker sketches

    The repository holds two Arduino sketches, [StockTicker.ino] and
    [ticker/ticker.ino/ticker.ino.ino].  They share [marketOpen],
    [chopDecimalPlaces], [getQuote] and [TaskDisplay]; [TaskGetQuotes]
    differs in how it waits, and [TaskControl] exists in
    [StockTicker.ino] only.

    Conventions of the embedding:
    - a C character array is a [list ascii] holding every byte of the
      array, the terminating NUL included; [strlen] and [c_str] give the
      C view of it;
    - an Arduino [String] is the [list ascii] of its characters;
    - positions in strings and arrays ([i], [nPos], [index],
      [stocksIndex], [quoteCnt]) are [nat]: each of them is bounded by
      the length of a string or by a small constant;
    - broken-down times ([struct tm]) and [time_t] values are [Z];
    - code whose behaviour C++ leaves undefined returns an [outcome]
      carrying the reason. *)

From stdpp Require Import base decidable numbers option list strings.
From Stdlib Require Import ZArith Lia Ascii.
From Stdlib Require DecimalString.
From Equations Require Import Equations.

Local Open Scope Z_scope.
Local Open Scope nat_scope.
Local Open Scope list_scope.

(** ** Characters, C strings and Arduino strings *)

Definition NUL : ascii := Ascii.zero.

(** The characters of a string literal. *)
Definition lit (s : string) : list ascii := String.list_ascii_of_string s.

(** [strlen]: the number of bytes before the first NUL. *)
Fixpoint strlen (buf : list ascii) : nat :=
  match buf with
  | [] => 0
  | c :: buf' => if decide (c = NUL) then 0 else S (strlen buf')
  end.

(** The C string held by a character array. *)
Definition c_str (buf : list ascii) : list ascii := take (strlen buf) buf.

(** The position of the first decimal point of a string. *)
Fixpoint dot_index (s : list ascii) : option nat :=
  match s with
  | [] => None
  | c :: s' => if decide (c = "."%char) then Some 0 else S <$> dot_index s'
  end.

(** The characters after the first decimal point (none without one). *)
Definition decimals (s : list ascii) : list ascii :=
  match dot_index s with
  | Some d => drop (S d) s
  | None => []
  end.

(** ** [chopDecimalPlaces]

    [[
    int i = 0;
    while (i < strlen(numStr)) {
      if (numStr[i] == '.') {
        i += 3;
        if (i < strlen(numStr)) { numStr[i] = '\0'; break; }
      }
      i += 1;
    }
    ]]
    [chop_loop i numStr] is the loop entered with the given [i]; every
    iteration that does not leave the loop makes [strlen numStr - i]
    smaller. *)
Equations? chop_loop (i : nat) (numStr : list ascii) : list ascii
  by wf (strlen numStr - i) lt :=
  chop_loop i numStr with decide (i < strlen numStr) := {
    | right _ => numStr
    | left _ with decide (numStr !! i = Some "."%char) := {
      | right _ => chop_loop (i + 1) numStr
      | left _ with decide (i + 3 < strlen numStr) := {
        | left _ => <[i + 3 := NUL]> numStr
        | right _ => chop_loop (i + 3 + 1) numStr } } }.
Proof. all: lia. Qed.

Definition chopDecimalPlaces (numStr : list ascii) : list ascii :=
  chop_loop 0 numStr.

(** What the documentation of [chopDecimalPlaces] asks for, on the
    string itself: keep everything up to the decimal point and at most
    two characters after it. *)
Fixpoint truncate2 (s : list ascii) : list ascii :=
  match s with
  | [] => []
  | c :: s' => if decide (c = "."%char) then c :: take 2 s' else c :: truncate2 s'
  end.

(** A character array that holds the string [s] and nothing else. *)
Definition buffer_of (s : list ascii) : list ascii := s ++ [NUL].

(** ** Undefined behaviour *)

Inductive ub : Type :=
  | UninitializedRead   (* a variable is read before any assignment *)
  | BufferOverflow      (* a write past the end of a character array *)
  | OutOfBounds.        (* an array is indexed outside its bounds *)

Inductive outcome (A : Type) : Type :=
  | Ok (a : A)
  | Undefined (why : ub).
Arguments Ok {A} a.
Arguments Undefined {A} why.

(** The error monad of [outcome], with stdpp's [x ← m; k] notation. *)
#[global] Instance outcome_ret : MRet outcome := fun A a => Ok a.
#[global] Instance outcome_bind : MBind outcome := fun A B f m =>
  match m with
  | Ok a => f a
  | Undefined why => Undefined why
  end.

(** ** Wall-clock time *)

(** The fields of [struct tm] that the sketches read or write. *)
Record tm : Type := mk_tm {
  tm_sec : Z;
  tm_min : Z;
  tm_hour : Z;
  tm_mday : Z;
  tm_mon : Z;    (* months since January *)
  tm_year : Z;   (* years since 1900 *)
  tm_wday : Z    (* days since Sunday *)
}.

(** Days between 1970-01-01 and the given civil date ([m] from 1). *)
Definition days_from_civil (y m d : Z) : Z :=
  let y := if (m <=? 2)%Z then (y - 1)%Z else y in
  let era := (y / 400)%Z in
  let yoe := (y - era * 400)%Z in
  let mp := if (m >? 2)%Z then (m - 3)%Z else (m + 9)%Z in
  let doy := ((153 * mp + 2) / 5 + d - 1)%Z in
  let doe := (yoe * 365 + yoe / 4 - yoe / 100 + doy)%Z in
  (era * 146097 + doe - 719468)%Z.

(** [mktime]: seconds on the local time line.  The offset of the time
    zone is left out: the sketches only subtract two results of the same
    calendar day.  [tm_wday] is ignored, as in C. *)
Definition mktime (t : tm) : Z :=
  (86400 * days_from_civil (1900 + tm_year t) (tm_mon t + 1) (tm_mday t)
   + 3600 * tm_hour t + 60 * tm_min t + tm_sec t)%Z.

(** [difftime (end, beginning)]; the differences that occur are far
    below 2^53, so the double is exact. *)
Definition difftime (time_end time_beg : Z) : Z := (time_end - time_beg)%Z.

Definition MARKET_OPEN_HR : Z := 9.
Definition MARKET_OPEN_MIN : Z := 30.
Definition MARKET_CLOSE_HR : Z := 16.
Definition MARKET_CLOSE_MIN : Z := 0.
Definition DISP_DATE_CNT : nat := 20.
Definition ACTIVE_ON_HR : Z := 7.
Definition ACTIVE_OFF_HR : Z := 19.

(** ** [marketOpen]

    [timeinfo] is [*localtime(&now)], and [now] is recovered from it.
    [[
    tm openTime  = *localtime(&now);
    tm closeTime = *localtime(&now);
    openTime.tm_hour  = MARKET_OPEN_HR;
    openTime.tm_min   = MARKET_OPEN_MIN;
    openTime.tm_sec   = 0;
    closeTime.tm_hour = MARKET_CLOSE_HR;
    closeTime.tm_min  = MARKET_CLOSE_MIN;
    bool marketIsOpen;
    if (timeinfo->tm_wday > 0 && timeinfo->tm_wday < 7) {
      marketIsOpen = difftime(now, mktime(&openTime)) > 0 &&
                     difftime(now, mktime(&closeTime)) < 0;
    }
    return marketIsOpen;
    ]]
    The local [marketIsOpen] has no initializer: it is [None] until the
    guarded assignment runs.  [closeTime.tm_sec] is not assigned and keeps
    the seconds of [now]. *)
Definition marketOpen (timeinfo : tm) : outcome bool :=
  let now := mktime timeinfo in
  let openTime :=
    mk_tm 0 MARKET_OPEN_MIN MARKET_OPEN_HR
          (tm_mday timeinfo) (tm_mon timeinfo) (tm_year timeinfo) (tm_wday timeinfo) in
  let closeTime :=
    mk_tm (tm_sec timeinfo) MARKET_CLOSE_MIN MARKET_CLOSE_HR
          (tm_mday timeinfo) (tm_mon timeinfo) (tm_year timeinfo) (tm_wday timeinfo) in
  let marketIsOpen : option bool := None in
  let marketIsOpen :=
    if (0 <? tm_wday timeinfo)%Z && (tm_wday timeinfo <? 7)%Z
    then Some ((0 <? difftime now (mktime openTime))%Z
               && (difftime now (mktime closeTime) <? 0)%Z)
    else marketIsOpen in
  match marketIsOpen with
  | Some b => Ok b
  | None => Undefined UninitializedRead
  end.

(** What section 4.2 of the design asks for: Monday to Friday, from the
    opening time (included) to the closing time (excluded). *)
Definition seconds_of_day (t : tm) : Z :=
  (3600 * tm_hour t + 60 * tm_min t + tm_sec t)%Z.

Definition market_hours (t : tm) : bool :=
  (1 <=? tm_wday t)%Z && (tm_wday t <=? 5)%Z
  && (3600 * MARKET_OPEN_HR + 60 * MARKET_OPEN_MIN <=? seconds_of_day t)%Z
  && (seconds_of_day t <? 3600 * MARKET_CLOSE_HR + 60 * MARKET_CLOSE_MIN)%Z.

(** Saturday 31 October 2026, 10:00:00; Monday 2 November 2026,
    09:30:00; Sunday 1 November 2026, 12:00:00. *)
Definition saturday_10h : tm := mk_tm 0 0 10 31 9 126 6.
Definition monday_open : tm := mk_tm 0 30 9 2 10 126 1.
Definition sunday_noon : tm := mk_tm 0 0 12 1 10 126 0.
Definition monday_10h : tm := mk_tm 0 0 10 2 10 126 1.
Definition monday_close : tm := mk_tm 0 0 16 2 10 126 1.

(** ** Arduino [String] operations *)

Definition LF : ascii := "010"%char.
Definition CR : ascii := "013"%char.
Definition DQUOTE : ascii := "034"%char.

Fixpoint startsWith (s prefix : list ascii) : bool :=
  match prefix, s with
  | [], _ => true
  | _ :: _, [] => false
  | p :: prefix', c :: s' => if decide (c = p) then startsWith s' prefix' else false
  end.

(** [isspace] of the C locale. *)
Definition isspace (c : ascii) : bool :=
  match c with
  | "009" | "010" | "011" | "012" | "013" | " " => true
  | _ => false
  end%char.

Fixpoint skip_space (s : list ascii) : list ascii :=
  match s with
  | [] => []
  | c :: s' => if isspace c then skip_space s' else s
  end.

(** [String::trim]: white space is removed at both ends. *)
Definition trim (s : list ascii) : list ascii :=
  reverse (skip_space (reverse (skip_space s))).

(** [String::charAt]: NUL outside the string. *)
Definition charAt (s : list ascii) (i : nat) : ascii := default NUL (s !! i).

(** ** The HTTPS client

    The transport is outside the sketches.  A server is described by
    whether [connect] succeeds and by the bytes it sends before it closes
    the connection (the request carries [Connection: close]); the client
    is the list of bytes not read yet, and [connected] holds while some
    are left. *)
Record server : Type := mk_server {
  reachable : bool;
  response : list ascii
}.

Definition connected (clientS : list ascii) : bool :=
  match clientS with [] => false | _ :: _ => true end.

(** [Stream::findUntil]: bytes are read until the text read so far ends
    with [target] (true), or with a non-empty [terminator] (false), or no
    byte is left (false).  [seen] holds the bytes read, last one first. *)
Fixpoint find_loop (target terminator seen clientS : list ascii)
  : bool * list ascii :=
  match clientS with
  | [] => (false, [])
  | c :: rest =>
      let seen := c :: seen in
      if startsWith seen (reverse target) then (true, rest)
      else if negb (bool_decide (terminator = []))
              && startsWith seen (reverse terminator) then (false, rest)
      else find_loop target terminator seen rest
  end.

Definition findUntil (target terminator clientS : list ascii) : bool * list ascii :=
  match target with
  | [] => (true, clientS)
  | _ :: _ => find_loop target terminator [] clientS
  end.

(** [Stream::find]: [findUntil] without a terminator. *)
Definition find (target clientS : list ascii) : bool * list ascii :=
  findUntil target [] clientS.

(** [Stream::readStringUntil]: the bytes before the first [terminator],
    which is read and dropped; everything when there is none. *)
Fixpoint readStringUntil (terminator : ascii) (clientS : list ascii)
  : list ascii * list ascii :=
  match clientS with
  | [] => ([], [])
  | c :: rest =>
      if decide (c = terminator) then ([], rest)
      else let '(line, rest') := readStringUntil terminator rest in (c :: line, rest')
  end.

(** A value together with the equation that defines it, for the
    termination argument below. *)
Definition inspect {A : Type} (a : A) : {b : A | a = b} := exist _ a eq_refl.

(** The loop of [getQuote] that collects the quote lines:
    [[
    while (clientS.connected()) {
      String line = clientS.readStringUntil('\n');
      line.trim();
      if (line.startsWith("</div>")) break;
      else quoteData = quoteData + " " + line;
    }
    ]]
    [connected clientS] is false for the empty list, the first clause. *)
Equations? read_lines (quoteData clientS : list ascii) : list ascii
  by wf (length clientS) lt :=
  read_lines quoteData [] := quoteData;
  read_lines quoteData (c :: rest) with inspect (readStringUntil LF (c :: rest)) := {
    | exist _ (line, rest') Hread with startsWith (trim line) (lit "</div>") := {
      | true => quoteData
      | false => read_lines (quoteData ++ lit " " ++ trim line) rest' } }.
Proof.
  clear read_lines. cbn [readStringUntil] in Hread.
  assert (Hlen : forall s, length (readStringUntil LF s).2 <= length s).
  { clear. induction s as [|a s IH]; cbn; [lia|].
    destruct (decide (a = LF)); cbn; [lia|].
    destruct (readStringUntil LF s); cbn in *; lia. }
  destruct (decide (c = LF)).
  - inversion Hread; subst. cbn. lia.
  - specialize (Hlen rest). destruct (readStringUntil LF rest).
    inversion Hread; subst. cbn in *. lia.
Qed.

(** ** The [Regexp] library (Lua patterns)

    The library is not part of the repository.  The four patterns of
    [getQuote] use literal characters, one character set and the greedy
    repetition [*] of a set; this is the fragment embedded here, with
    Lua's backtracking for [*]. *)
Inductive single : Type :=
  | Lit (c : ascii)
  | CharSet (members : list ascii) (ranges : list (ascii * ascii)).

Inductive item : Type :=
  | One (x : single)
  | Star (x : single).

Definition in_range (c : ascii) (r : ascii * ascii) : bool :=
  (nat_of_ascii r.1 <=? nat_of_ascii c) && (nat_of_ascii c <=? nat_of_ascii r.2).

Definition singlematch (x : single) (c : ascii) : bool :=
  match x with
  | Lit c' => bool_decide (c = c')
  | CharSet members ranges =>
      existsb (fun m => bool_decide (c = m)) members || existsb (in_range c) ranges
  end.

(** The longest run of characters of [s] that match [x]. *)
Fixpoint run_length (x : single) (s : list ascii) : nat :=
  match s with
  | [] => 0
  | c :: s' => if singlematch x c then S (run_length x s') else 0
  end.

(** [do_match p s]: the length of the match of [p] at the start of [s].
    For [x*] the longest run is tried first, then shorter ones
    ([max_expand]). *)
Fixpoint do_match (p : list item) (s : list ascii) : option nat :=
  match p with
  | [] => Some 0
  | One x :: p' =>
      match s with
      | [] => None
      | c :: s' => if singlematch x c then S <$> do_match p' s' else None
      end
  | Star x :: p' =>
      (fix expand (i : nat) : option nat :=
         match do_match p' (drop i s) with
         | Some n => Some (i + n)
         | None => match i with O => None | S i' => expand i' end
         end) (run_length x s)
  end.

(** The unanchored search of [MatchState::Match]: every start position
    from [pos] to the end of the source, the end included. *)
Fixpoint search (p : list item) (s : list ascii) (pos : nat) : option (nat * nat) :=
  match do_match p s with
  | Some n => Some (pos, n)
  | None => match s with
            | [] => None
            | _ :: s' => search p s' (S pos)
            end
  end.

(** [ms.Match (pattern, index)]: [Some (MatchStart, MatchLength)] for
    [REGEXP_MATCHED], [None] for [REGEXP_NOMATCH]. *)
Definition Match (pattern : list item) (src : list ascii) (index : nat)
  : option (nat * nat) :=
  if decide (index <= length src) then search pattern (drop index src) index
  else None.

(** [ms.GetMatch (s)] into an array of [size] bytes that holds only NUL
    bytes: [MatchLength] bytes are copied and a NUL is written after
    them. *)
Definition GetMatch (src : list ascii) (m : option (nat * nat)) (size : nat)
  : outcome (list ascii) :=
  match m with
  | None => Ok (replicate size NUL)
  | Some (MatchStart, MatchLength) =>
      if decide (MatchLength < size)
      then Ok (take MatchLength (drop MatchStart src) ++ replicate (size - MatchLength) NUL)
      else Undefined BufferOverflow
  end.

Definition literal (s : string) : list item := (fun c => One (Lit c)) <$> lit s.

Definition lower_quote_space : single :=
  CharSet [DQUOTE; " "%char] [("a", "z")]%char.

(** The word price, then any run of lower-case letters, double quotes
    and spaces, then an equals sign and a double quote. *)
Definition price_key : list item :=
  literal "price" ++ [Star lower_quote_space; One (Lit "="%char); One (Lit DQUOTE)].

(** The same with the word priceChange. *)
Definition priceChange_key : list item :=
  literal "priceChange" ++ [Star lower_quote_space; One (Lit "="%char); One (Lit DQUOTE)].

(** Any run of digits and dots. *)
Definition price_value : list item :=
  [Star (CharSet ["."]%char [("0", "9")]%char)].

(** Any run of digits, dots and minus signs. *)
Definition change_value : list item :=
  [Star (CharSet ["."; "-"]%char [("0", "9")]%char)].

(** ** The sketch, for a given list of ticker symbols *)

Section Sketch.

(** [String stocks[] = {...}]: four symbols in [StockTicker.ino], five
    in [ticker.ino.ino]. *)
Context (stocks : list (list ascii)).

Definition stocksLen : nat := length stocks.

Definition updatingMsg : list ascii := lit "UPDATING.............  ".
Definition spacer : list ascii := lit "  ".
Definition displayWidth : nat := 14.

(** The globals shared by the tasks. *)
Record globals : Type := mk_globals {
  stocksQuotes : list (list ascii);
  haveQuoteData : bool
}.

(** *** [getQuote] *)

(** The part of [getQuote] that reads the quote lines from the stream:
    [quoteData] starts empty; if [find] reaches the marker
    (structured-data between double quotes), the rest of that line is
    read and dropped and the loop [read_lines] runs. *)
Definition structured_data : list ascii :=
  [DQUOTE] ++ lit "structured-data" ++ [DQUOTE].

Definition read_quoteData (clientS : list ascii) : list ascii :=
  let quoteData := [] in
  let '(found, clientS) := find structured_data clientS in
  if found then
    let '(_, clientS) := readStringUntil LF clientS in
    read_lines quoteData clientS
  else quoteData.

(** The part that finds the two numbers in [quoteData]:
    [[
    char buf [quoteData.length() + 1];
    quoteData.toCharArray(buf, quoteData.length() + 1);
    MatchState ms(buf);
    result = ms.Match (price_key, 0);
    if (result == REGEXP_MATCHED) {
      result = ms.Match (price_value, ms.MatchStart + ms.MatchLength);
      ms.GetMatch(price);
    }
    result = ms.Match (priceChange_key, 0);
    if (result == REGEXP_MATCHED) {
      result = ms.Match (change_value, ms.MatchStart + ms.MatchLength);
      ms.GetMatch(change);
    }
    ]]
    [price] and [change] are arrays of 16 bytes, all NUL at first; the
    result is the pair of them. *)
Definition scan_field (key value : list item) (src : list ascii)
  : outcome (list ascii) :=
  match Match key src 0 with
  | Some (MatchStart, MatchLength) =>
      GetMatch src (Match value src (MatchStart + MatchLength)) 16
  | None => Ok (replicate 16 NUL)
  end.

Definition scan_quote (quoteData : list ascii) : outcome (list ascii * list ascii) :=
  let buf := quoteData ++ [NUL] in
  let src := c_str buf in
  price ← scan_field price_key price_value src;
  change ← scan_field priceChange_key change_value src;
  Ok (price, change).

(** The end of [getQuote]:
    [dir] is a plus sign unless [change[0]] is a minus sign, in which
    case it is empty; then
    [[
    chopDecimalPlaces(price);
    chopDecimalPlaces(change);
    stocksQuotes[index] = String(stocks[index] + " " + price + " " + dir + change);
    ]]
    [signed_change] is [dir + change], [quote_text] the whole string. *)
Definition signed_change (change : list ascii) : list ascii :=
  let dir := if decide (change !! 0 = Some "-"%char) then [] else lit "+" in
  let change := chopDecimalPlaces change in
  dir ++ c_str change.

Definition quote_text (symbol price change : list ascii) : list ascii :=
  let shown := signed_change change in
  let price := chopDecimalPlaces price in
  symbol ++ lit " " ++ c_str price ++ lit " " ++ shown.

(** [stocksQuotes[index] = text]; the array is indexed outside its
    bounds when [index] is not below its number of entries. *)
Definition store_quote (index : nat) (text : list ascii) (quotes : list (list ascii))
  : outcome (list (list ascii)) :=
  if decide (index < length quotes) then Ok (<[index := text]> quotes)
  else Undefined OutOfBounds.

(** [getQuote] reads [stocks[index]] first, for the URL of the request
    (the URL itself goes to the server, which is given as [srv]). *)
Definition getQuote (srv : server) (index : nat) (quotes : list (list ascii))
  : outcome (list (list ascii)) :=
  match stocks !! index with
  | None => Undefined OutOfBounds
  | Some symbol =>
      if negb (reachable srv) then Ok quotes       (* could not connect *)
      else
        let clientS := response srv in
        let '(ok, clientS) := findUntil (lit "200 OK") [LF] clientS in
        if negb ok then store_quote index (lit "Invalid Symbol") quotes
        else
          let quoteData := read_quoteData clientS in
          if decide (quoteData = []) then Ok quotes  (* could not read data *)
          else
            '(price, change) ← scan_quote quoteData;
            store_quote index (quote_text symbol price change) quotes
  end.

(** *** [TaskGetQuotes]

    One iteration of the task of [StockTicker.ino]:
    [[
    if (marketOpen() || !haveQuoteData) {
      getQuote(stocksIndex);
      stocksIndex += 1;
      if (stocksIndex == stocksLen) {
        stocksIndex = 0;
        vTaskDelay(xDelay);
        haveQuoteData = true;
      }
    }
    else { vTaskDelay(xDelay); }
    ]]
    [timeinfo] is the local time that [marketOpen] reads and [srv] is the
    server as [getQuote] finds it. *)
Definition TaskGetQuotes_iter (timeinfo : tm) (srv : server)
    (g : globals) (stocksIndex : nat) : outcome (globals * nat) :=
  open ← marketOpen timeinfo;
  if open || negb (haveQuoteData g) then
    quotes ← getQuote srv stocksIndex (stocksQuotes g);
    let stocksIndex := stocksIndex + 1 in
    if decide (stocksIndex = stocksLen)
    then Ok (mk_globals quotes true, 0)
    else Ok (mk_globals quotes (haveQuoteData g), stocksIndex)
  else Ok (g, stocksIndex).

(** 32-bit conversions: [millis] is an [unsigned long], [lastUpdateTime]
    a [long]. *)
Definition to_u32 (x : Z) : Z := (x mod 2 ^ 32)%Z.
Definition to_i32 (x : Z) : Z := ((x + 2 ^ 31) mod 2 ^ 32 - 2 ^ 31)%Z.

(** One iteration of the task of [ticker.ino.ino], which polls [millis]
    instead of sleeping:
    [[
    if (millis() > lastUpdateTime + intervalUpdate) {
      if (marketOpen() || !haveQuoteData) {
        getQuote(stocksIndex);
        stocksIndex += 1;
        if (stocksIndex == stocksLen) {
          stocksIndex = 0;
          lastUpdateTime = millis();
          haveQuoteData = true;
        }
      }
      else { lastUpdateTime = millis(); }
    }
    ]]
    [millis1] is the reading of the first call of [millis], [millis2] the
    reading of the later one. *)
Definition intervalUpdate_poll : Z := 120000.

Definition TaskGetQuotes_poll_iter (millis1 millis2 : Z) (timeinfo : tm)
    (srv : server) (g : globals) (stocksIndex : nat) (lastUpdateTime : Z)
  : outcome (globals * nat * Z) :=
  if (to_u32 (lastUpdateTime + intervalUpdate_poll) <? millis1)%Z then
    open ← marketOpen timeinfo;
    if open || negb (haveQuoteData g) then
      quotes ← getQuote srv stocksIndex (stocksQuotes g);
      let stocksIndex := stocksIndex + 1 in
      if decide (stocksIndex = stocksLen)
      then Ok (mk_globals quotes true, 0, to_i32 millis2)
      else Ok (mk_globals quotes (haveQuoteData g), stocksIndex, lastUpdateTime)
    else Ok (g, stocksIndex, to_i32 millis2)
  else Ok (g, stocksIndex, lastUpdateTime).

(** *** [TaskDisplay] *)

Definition month_names : list (list ascii) :=
  lit <$> ["January"; "February"; "March"; "April"; "May"; "June"; "July";
           "August"; "September"; "October"; "November"; "December"].

Definition digit (n : Z) : ascii := ascii_of_nat (48 + Z.to_nat (n mod 10)).

(** Two decimal digits, with a leading zero. *)
Definition dec2 (n : Z) : list ascii := [digit (n / 10); digit n].

(** All decimal digits of a number that is not negative. *)
Definition dec (n : Z) : list ascii :=
  lit (DecimalString.NilZero.string_of_uint (N.to_uint (Z.to_N n))).

(** The text that [strftime] produces for the format of the banner,
    [ ... %B, %d %Y  %I:%M %p ...   ], in the C locale. *)
Definition strftime_banner (timeinfo : tm) : list ascii :=
  let hour12 := (tm_hour timeinfo mod 12)%Z in
  let hour12 := if (hour12 =? 0)%Z then 12%Z else hour12 in
  lit " ... "
  ++ default [] (month_names !! Z.to_nat (tm_mon timeinfo))
  ++ lit ", " ++ dec2 (tm_mday timeinfo)
  ++ lit " " ++ dec (1900 + tm_year timeinfo)
  ++ lit "  " ++ dec2 hour12 ++ lit ":" ++ dec2 (tm_min timeinfo)
  ++ lit " " ++ (if (tm_hour timeinfo <? 12)%Z then lit "AM" else lit "PM")
  ++ lit " ...   ".

(** [char dateTime[30]; strftime (dateTime, 80, ...); nextUp = dateTime;]:
    [strftime] is allowed 80 bytes, so it writes the whole text and its
    NUL, which is past the end of [dateTime] unless the text has fewer
    than 30 characters. *)
Definition dateTime_size : nat := 30.

Definition strftime_dateTime (timeinfo : tm) : outcome (list ascii) :=
  let text := strftime_banner timeinfo in
  if decide (length text < dateTime_size) then Ok text
  else Undefined BufferOverflow.

(** The locals of [TaskDisplay]. *)
Record ticker : Type := mk_ticker {
  displayText : list ascii;
  quoteCnt : nat;
  index : nat;
  nPos : nat;
  nextUp : list ascii
}.

(** [stocksQuotes[i]]; the tasks only run with [stocksLen] entries and
    an index below [stocksLen]. *)
Definition quote_at (quotes : list (list ascii)) (i : nat) : list ascii :=
  default [] (quotes !! i).

(** The loop that fills [displayText] before the ticker starts:
    [[
    for (int i = 0; i < stocksLen; i++) {
      if (stocksQuotes[i].length() == 0) {
        displayText += updatingMsg;
        haveQuoteData = false;
      }
      else { displayText += stocksQuotes[i] + spacer; }
    }
    ]] *)
Fixpoint load_displayText (quotes : list (list ascii)) (displayText : list ascii)
    (have : bool) : list ascii * bool :=
  match quotes with
  | [] => (displayText, have)
  | quote :: quotes' =>
      if decide (length quote = 0)
      then load_displayText quotes' (displayText ++ updatingMsg) false
      else load_displayText quotes' (displayText ++ quote ++ spacer) have
  end.

Definition TaskDisplay_init (g : globals) : globals * ticker :=
  let '(displayText, have) := load_displayText (stocksQuotes g) [] (haveQuoteData g) in
  (mk_globals (stocksQuotes g) have,
   mk_ticker displayText 0 0 0 (quote_at (stocksQuotes g) 0 ++ spacer)).

(** One iteration of the endless loop of [TaskDisplay]:
    [[
    displayText.remove(0, 1);
    displayText += nextUp.charAt(nPos);
    nPos += 1;
    if (nPos == nextUp.length()) {
      nPos = 0;
      index = (index + 1) % stocksLen;
      quoteCnt = (quoteCnt + 1) % DISP_DATE_CNT;
      if (quoteCnt == 0) { ...; nextUp = dateTime; }
      else if (stocksQuotes[index].length() == 0) { nextUp = updatingMsg; }
      else { nextUp = stocksQuotes[index] + spacer; }
    }
    display.drawString(0, 16, displayText.substring(0, displayWidth));
    ]]
    [quotes] is [stocksQuotes] as the iteration finds it and [timeinfo]
    the local time; the result is the new state and the text drawn, or
    the overflow of [dateTime]. *)
Definition TaskDisplay_tick (timeinfo : tm) (quotes : list (list ascii))
    (t : ticker) : outcome (ticker * list ascii) :=
  let displayText := drop 1 (displayText t) in
  let displayText := displayText ++ [charAt (nextUp t) (nPos t)] in
  let nPos := nPos t + 1 in
  t' ← (if decide (nPos = length (nextUp t)) then
          let nPos := 0 in
          let index := (index t + 1) mod stocksLen in
          let quoteCnt := (quoteCnt t + 1) mod DISP_DATE_CNT in
          nextUp ← (if decide (quoteCnt = 0) then strftime_dateTime timeinfo
                    else if decide (length (quote_at quotes index) = 0)
                         then Ok updatingMsg
                         else Ok (quote_at quotes index ++ spacer));
          Ok (mk_ticker displayText quoteCnt index nPos nextUp)
        else Ok (mk_ticker displayText (quoteCnt t) (index t) nPos (nextUp t)));
  Ok (t', take displayWidth displayText).

(** The ticker after a series of iterations; each one comes with the
    time and the quotes it finds. *)
Fixpoint TaskDisplay_run (env : list (tm * list (list ascii))) (t : ticker)
  : outcome ticker :=
  match env with
  | [] => Ok t
  | (timeinfo, quotes) :: env' =>
      '(t', _) ← TaskDisplay_tick timeinfo quotes t;
      TaskDisplay_run env' t'
  end.

End Sketch.

(** ** [TaskControl] ([StockTicker.ino] only) *)

Inductive task : Type := TaskDisplayH | TaskGetQuotesH.

Inductive call : Type :=
  | vTaskResume (h : task)
  | vTaskSuspend (h : task)
  | display_display
  | display_clear.

(** One iteration of the endless loop, with the calls it makes:
    [[
    if (timeinfo->tm_hour >= ACTIVE_ON_HR && timeinfo->tm_hour < ACTIVE_OFF_HR) {
      if (!displayOn) {
        displayOn = true;
        vTaskResume(TaskDisplayH);
        vTaskResume(TaskGetQuotesH);
      }
    }
    else {
      if (displayOn) {
        displayOn = false;
        display.display();
        vTaskSuspend(TaskDisplayH);
        vTaskSuspend(TaskGetQuotesH);
        display.clear();
        display.display();
      }
    }
    ]] *)
Definition active (timeinfo : tm) : bool :=
  (ACTIVE_ON_HR <=? tm_hour timeinfo)%Z && (tm_hour timeinfo <? ACTIVE_OFF_HR)%Z.

Definition TaskControl_iter (timeinfo : tm) (displayOn : bool) : list call * bool :=
  if active timeinfo then
    if negb displayOn
    then ([vTaskResume TaskDisplayH; vTaskResume TaskGetQuotesH], true)
    else ([], displayOn)
  else
    if displayOn
    then ([display_display; vTaskSuspend TaskDisplayH; vTaskSuspend TaskGetQuotesH;
           display_clear; display_display], false)
    else ([], displayOn).

(** The calls of a series of iterations, one list per iteration, and the
    final [displayOn]. *)
Fixpoint TaskControl_run (times : list tm) (displayOn : bool)
  : list (list call) * bool :=
  match times with
  | [] => ([], displayOn)
  | timeinfo :: times' =>
      let '(calls, displayOn) := TaskControl_iter timeinfo displayOn in
      let '(later, displayOn) := TaskControl_run times' displayOn in
      (calls :: later, displayOn)
  end.

#[global] Instance task_eq_dec : EqDecision task.
Proof. solve_decision. Defined.

#[global] Instance call_eq_dec : EqDecision call.
Proof. solve_decision. Defined.

(** How often the call [c] is made in a series of iterations. *)
Definition count_call (c : call) (calls : list (list call)) : nat :=
  length (filter (fun x => x = c) (concat calls)).

(** The state in which the ticker of [TaskDisplay] is kept: there is
    text on the tape and [nPos] points into [nextUp]. *)
Definition ticker_ok (t : ticker) : Prop :=
  displayText t <> [] /\ nPos t < length (nextUp t).

(** ** Concrete data for the examples *)

(** The symbols of [StockTicker.ino], the empty quote array that [setup]
    leaves, and a few servers. *)
Definition stocks_main : list (list ascii) := lit <$> ["MSFT"; "AAPL"; "FB"; "GOOG"].

Definition no_quotes : list (list ascii) := replicate 4 [].

Definition unreachable_server : server := mk_server false [].

Definition http_ok : list ascii :=
  lit "HTTP/1.1 200 OK" ++ [CR; LF] ++ lit "Content-Type: text/html" ++ [CR; LF; CR; LF].

Definition attribute (name value : string) : list ascii :=
  lit name ++ lit "=" ++ [DQUOTE] ++ lit value ++ [DQUOTE].



(** A page with both numbers, as in the round trip of the design. *)
Definition page_with_quote : server :=
  mk_server true
    (http_ok ++ lit "<div " ++ attribute "class" "structured-data" ++ lit ">" ++ [LF]
     ++ lit "  <meta " ++ attribute "price" "45.6789" ++ lit " />" ++ [CR; LF]
     ++ lit "  <meta " ++ attribute "priceChange" "-1.234" ++ lit " />" ++ [CR; LF]
     ++ lit "</div>" ++ [LF] ++ lit "</html>" ++ [LF]).

(** A page with the change but no price. *)
Definition page_without_price : server :=
  mk_server true
    (http_ok ++ lit "<div " ++ attribute "class" "structured-data" ++ lit ">" ++ [LF]
     ++ lit "  <meta " ++ attribute "priceChange" "1.5" ++ lit " />" ++ [CR; LF]
     ++ lit "</div>" ++ [LF] ++ lit "</html>" ++ [LF]).

Definition page_not_found : server :=
  mk_server true (lit "HTTP/1.1 404 Not Found" ++ [CR; LF; CR; LF] ++ lit "200 OK").

(** The calls of the two transitions of [TaskControl]. *)
Definition resume_calls : list call :=
  [vTaskResume TaskDisplayH; vTaskResume TaskGetQuotesH].

Definition suspend_calls : list call :=
  [display_display; vTaskSuspend TaskDisplayH; vTaskSuspend TaskGetQuotesH;
   display_clear; display_display].

(** Four readings of the clock on Monday 2 November 2026: 18:55, 19:00,
    19:05 and 23:10. *)
Definition evening : list tm :=
  [mk_tm 0 55 18 2 10 126 1; mk_tm 0 0 19 2 10 126 1; mk_tm 0 5 19 2 10 126 1;
   mk_tm 0 10 23 2 10 126 1].

(** The quote data that [getQuote] collects from [page_without_price],
    and the quote array after that call for index 1. *)
Definition data_without_price : list ascii :=
  read_quoteData (findUntil (lit "200 OK") [LF] (response page_without_price)).2.

Definition quotes_without_price : list (list ascii) :=
  [[]; lit "AAPL  +1.5"; []; []].

(** ** Further definitions for the properties of the whole sketch *)

(** The character sets of the two value patterns. *)
Definition price_class : single := CharSet ["."]%char [("0", "9")]%char.
Definition change_class : single := CharSet ["."; "-"]%char [("0", "9")]%char.

(** The number of characters of class [cls] that follow the first match
    of [key] in [src]; 0 without a match. *)
Definition value_run (key : list item) (cls : single) (src : list ascii) : nat :=
  match Match key src 0 with
  | Some (MatchStart, MatchLength) =>
      run_length cls (drop (MatchStart + MatchLength) src)
  | None => 0
  end.

(** The endless loop of [TaskGetQuotes] ([StockTicker.ino]) over the
    times and servers that its iterations find. *)
Fixpoint TaskGetQuotes_run (stocks : list (list ascii)) (env : list (tm * server))
    (g : globals) (stocksIndex : nat) : outcome (globals * nat) :=
  match env with
  | [] => Ok (g, stocksIndex)
  | (timeinfo, srv) :: env' =>
      '(g', stocksIndex') ← TaskGetQuotes_iter stocks timeinfo srv g stocksIndex;
      TaskGetQuotes_run stocks env' g' stocksIndex'
  end.

(** The characters of class [cls] that follow the first match of [key]
    in [src]; none without a match. *)
Definition value_text (key : list item) (cls : single) (src : list ascii)
  : list ascii :=
  match Match key src 0 with
  | Some (MatchStart, MatchLength) =>
      take (run_length cls (drop (MatchStart + MatchLength) src))
           (drop (MatchStart + MatchLength) src)
  | None => []
  end.

(** What one entry of [stocksQuotes] contributes to [displayText] when
    [TaskDisplay] starts. *)
Definition segment (quote : list ascii) : list ascii :=
  if decide (length quote = 0) then updatingMsg else quote ++ spacer.

(** 1 while the two tasks are suspended, 0 while they run. *)
Definition suspended (displayOn : bool) : nat := if displayOn then 0 else 1.


Definition quotes_with_msft : list (list ascii) :=
  [lit "MSFT 45.67 -1.23"; []; []; []].

(** The iterations of [TaskDisplay] from its start up to the first turn
    of the date banner, with four empty entries: 2 for the first segment
    and 23 for each of the next 18, then the last 22 of the segment that
    ends with the turn. *)
Definition before_banner : list (tm * list (list ascii)) :=
  replicate 438 (monday_10h, no_quotes).

(** A page whose price has sixteen digits. *)
Definition page_with_long_price : server :=
  mk_server true
    (http_ok ++ lit "<div " ++ attribute "class" "structured-data" ++ lit ">" ++ [LF]
     ++ lit "  <meta " ++ attribute "price" "1234567890.123456" ++ lit " />" ++ [CR; LF]
     ++ lit "</div>" ++ [LF]).

(** * Properties *)

(** ** C strings *)

Lemma strlen_le buf : strlen buf <= length buf.
Proof. induction buf as [|c buf IH]; cbn; [lia|]. case_decide; lia. Qed.

Lemma length_c_str buf : length (c_str buf) = strlen buf.
Proof. unfold c_str. rewrite length_take. pose proof (strlen_le buf). lia. Qed.

Lemma lookup_c_str buf i : i < strlen buf -> c_str buf !! i = buf !! i.
Proof. intros Hi. unfold c_str. by rewrite lookup_take_lt. Qed.

Lemma lookup_strlen_not_NUL buf i :
  i < strlen buf -> exists c, buf !! i = Some c /\ c <> NUL.
Proof.
  revert i. induction buf as [|c buf IH]; intros i; cbn; [lia|].
  case_decide; [lia|]. intros Hi. destruct i as [|i]; cbn.
  - eauto.
  - apply IH. lia.
Qed.

(** Writing a NUL inside the string cuts it there. *)
Lemma strlen_insert_NUL buf k :
  k < strlen buf -> strlen (<[k := NUL]> buf) = k.
Proof.
  revert k. induction buf as [|c buf IH]; intros k; cbn; [lia|].
  case_decide; [lia|]. intros Hk. destruct k as [|k]; cbn.
  - by rewrite decide_True.
  - rewrite decide_False by done. rewrite IH; lia.
Qed.

Lemma c_str_insert_NUL buf k :
  k < strlen buf -> c_str (<[k := NUL]> buf) = take k (c_str buf).
Proof.
  intros Hk. unfold c_str. rewrite strlen_insert_NUL by done.
  rewrite take_insert_ge by done. rewrite take_take. f_equal. lia.
Qed.

Lemma c_str_buffer_of s : NUL ∉ s -> c_str (buffer_of s) = s.
Proof.
  intros Hs. unfold c_str, buffer_of.
  assert (strlen (s ++ [NUL]) = length s) as ->.
  { induction s as [|c s IH]; cbn; [done|].
    rewrite decide_False by (intros ->; apply Hs; left).
    rewrite IH; [done|]. intros H. apply Hs. by right. }
  by rewrite take_app_length.
Qed.

(** ** The first decimal point *)

Lemma dot_index_Some s d :
  dot_index s = Some d ->
  s !! d = Some "."%char /\ forall j, j < d -> s !! j <> Some "."%char.
Proof.
  revert d. induction s as [|c s IH]; intros d; cbn; [done|].
  case_decide as Hc.
  - intros [= <-]. split; [by subst|]. lia.
  - destruct (dot_index s) as [d'|] eqn:Hd; cbn; [|done]. intros [= <-].
    destruct (IH d' eq_refl) as [H1 H2]. split; [done|].
    intros [|j] Hj; cbn; [congruence|]. apply H2. lia.
Qed.

Lemma dot_index_None s j : dot_index s = None -> s !! j <> Some "."%char.
Proof.
  revert j. induction s as [|c s IH]; intros j; cbn; [done|].
  case_decide as Hc; [done|].
  destruct (dot_index s) eqn:Hd; cbn; [done|]. intros _.
  destruct j as [|j]; cbn; [congruence|]. by apply IH.
Qed.

Lemma dot_index_lt s d : dot_index s = Some d -> d < length s.
Proof.
  intros [H _]%dot_index_Some. apply lookup_lt_is_Some. eauto.
Qed.

Lemma dot_index_take s d n :
  dot_index s = Some d -> d < n -> dot_index (take n s) = Some d.
Proof.
  revert d n. induction s as [|c s IH]; intros d n; cbn; [done|].
  case_decide as Hc.
  - intros [= <-] Hn. destruct n; [lia|]. cbn. by rewrite decide_True.
  - destruct (dot_index s) as [d'|] eqn:Hd; cbn; [|done]. intros [= <-] Hn.
    destruct n; [lia|]. cbn. rewrite decide_False by done.
    rewrite (IH d' n); [done|done|lia].
Qed.

(** [truncate2] keeps the first [d + 3] characters when the first
    decimal point is at [d]. *)
Lemma truncate2_dot_index s :
  truncate2 s = match dot_index s with
                | Some d => take (d + 3) s
                | None => s
                end.
Proof.
  induction s as [|c s IH]; cbn; [done|].
  case_decide; [done|]. rewrite IH.
  by destruct (dot_index s).
Qed.

(** ** The loop of [chopDecimalPlaces] *)

Lemma chop_loop_ge i numStr : strlen numStr <= i -> chop_loop i numStr = numStr.
Proof.
  intros Hi. rewrite chop_loop_equation_1.
  destruct (decide (i < strlen numStr)); [lia|done].
Qed.

Lemma chop_loop_dot i d numStr :
  i <= d -> d < strlen numStr -> numStr !! d = Some "."%char ->
  (forall j, i <= j -> j < d -> numStr !! j <> Some "."%char) ->
  chop_loop i numStr =
    if decide (d + 3 < strlen numStr) then <[d + 3 := NUL]> numStr else numStr.
Proof.
  intros Hid Hd Hdot. remember (d - i) as n eqn:Hn.
  revert i Hid Hn. induction n as [|n IH]; intros i Hid Hn Hno.
  - assert (i = d) as -> by lia.
    rewrite chop_loop_equation_1.
    destruct (decide (d < strlen numStr)); [cbn|lia].
    destruct (decide (numStr !! d = Some "."%char)); [cbn|done].
    destruct (decide (d + 3 < strlen numStr)); cbn; [done|].
    apply chop_loop_ge. lia.
  - rewrite chop_loop_equation_1.
    destruct (decide (i < strlen numStr)); [cbn|lia].
    destruct (decide (numStr !! i = Some "."%char)) as [Hi|Hi]; cbn.
    { exfalso. apply (Hno i); [lia|lia|done]. }
    apply IH; [lia|lia|]. intros j ??. apply Hno; lia.
Qed.

Lemma chop_loop_no_dot i numStr :
  (forall j, i <= j -> j < strlen numStr -> numStr !! j <> Some "."%char) ->
  chop_loop i numStr = numStr.
Proof.
  remember (strlen numStr - i) as n eqn:Hn.
  revert i Hn. induction n as [|n IH]; intros i Hn Hno.
  - apply chop_loop_ge. lia.
  - rewrite chop_loop_equation_1.
    destruct (decide (i < strlen numStr)); [cbn|done].
    destruct (decide (numStr !! i = Some "."%char)) as [Hi|Hi]; cbn.
    { exfalso. apply (Hno i); [lia|lia|done]. }
    apply IH; [lia|]. intros j ??. apply Hno; lia.
Qed.

(** The array after [chopDecimalPlaces]: one NUL is written three
    places after the first decimal point of the string, if the string
    goes that far, and nothing else changes. *)
Lemma chopDecimalPlaces_spec numStr :
  chopDecimalPlaces numStr =
    match dot_index (c_str numStr) with
    | Some d => if decide (d + 3 < strlen numStr)
                then <[d + 3 := NUL]> numStr else numStr
    | None => numStr
    end.
Proof.
  unfold chopDecimalPlaces.
  destruct (dot_index (c_str numStr)) as [d|] eqn:Hd.
  - pose proof (dot_index_lt _ _ Hd) as Hlt. rewrite length_c_str in Hlt.
    destruct (dot_index_Some _ _ Hd) as [H1 H2].
    rewrite lookup_c_str in H1 by done.
    apply chop_loop_dot; [lia|done|done|].
    intros j _ Hj. rewrite <- lookup_c_str by lia. by apply H2.
  - apply chop_loop_no_dot. intros j _ Hj.
    rewrite <- lookup_c_str by done. by apply dot_index_None.
Qed.

Lemma c_str_chopDecimalPlaces numStr :
  c_str (chopDecimalPlaces numStr) = truncate2 (c_str numStr).
Proof.
  rewrite chopDecimalPlaces_spec, truncate2_dot_index.
  destruct (dot_index (c_str numStr)) as [d|]; [|done].
  case_decide.
  - by apply c_str_insert_NUL.
  - rewrite take_ge; [done|]. rewrite length_c_str. lia.
Qed.

Lemma decimals_truncate2 s : length (decimals (truncate2 s)) <= 2.
Proof.
  rewrite truncate2_dot_index. unfold decimals.
  destruct (dot_index s) as [d|] eqn:Hd.
  - destruct (decide (d + 3 <= length s)).
    + rewrite (dot_index_take s d) by (done || lia).
      rewrite length_drop, length_take. lia.
    + rewrite take_ge by lia. rewrite Hd. rewrite length_drop. lia.
  - rewrite Hd. cbn. lia.
Qed.

Lemma chopDecimalPlaces_short numStr :
  length (decimals (c_str numStr)) <= 2 -> chopDecimalPlaces numStr = numStr.
Proof.
  rewrite chopDecimalPlaces_spec. unfold decimals.
  destruct (dot_index (c_str numStr)) as [d|]; [|done].
  rewrite length_drop, length_c_str. intros H.
  case_decide; [lia|done].
Qed.

Lemma chopDecimalPlaces_no_dot numStr :
  dot_index (c_str numStr) = None -> chopDecimalPlaces numStr = numStr.
Proof. rewrite chopDecimalPlaces_spec. by intros ->. Qed.

Lemma chopDecimalPlaces_again numStr :
  chopDecimalPlaces (chopDecimalPlaces numStr) = chopDecimalPlaces numStr.
Proof.
  rewrite (chopDecimalPlaces_spec numStr).
  destruct (dot_index (c_str numStr)) as [d|] eqn:Hd.
  - case_decide as Hlt.
    + rewrite chopDecimalPlaces_spec.
      rewrite c_str_insert_NUL by done.
      rewrite (dot_index_take _ d) by (done || lia).
      rewrite strlen_insert_NUL by done.
      case_decide; [lia|done].
    + rewrite chopDecimalPlaces_spec, Hd. by rewrite decide_False.
  - by rewrite chopDecimalPlaces_spec, Hd.
Qed.

(** C3.  For every character array, numeric or not, the string left by
    [chopDecimalPlaces] has at most two characters after its first
    decimal point; it is the input with the further characters cut off,
    none of the kept ones being changed (no rounding); an input with at
    most two characters after the point, or with no point, is left as it
    is.  With the examples of the design: 123.456 gives 123.45, and 1 and
    -0.5 stay. *)
Theorem chopDecimalPlaces_two_decimals (numStr : list ascii) :
  let s := c_str numStr in
  let r := c_str (chopDecimalPlaces numStr) in
  length (decimals r) <= 2
  /\ r = truncate2 s
  /\ (forall d, dot_index s = Some d -> r = take (d + 3) s)
  /\ (length (decimals s) <= 2 -> chopDecimalPlaces numStr = numStr)
  /\ (dot_index s = None -> chopDecimalPlaces numStr = numStr)
  /\ c_str (chopDecimalPlaces (buffer_of (lit "123.456"))) = lit "123.45"
  /\ c_str (chopDecimalPlaces (buffer_of (lit "0.999"))) = lit "0.99"
  /\ chopDecimalPlaces (buffer_of (lit "1")) = buffer_of (lit "1")
  /\ chopDecimalPlaces (buffer_of (lit "-0.5")) = buffer_of (lit "-0.5").
Proof.
  cbn zeta. rewrite c_str_chopDecimalPlaces.
  split; [apply decimals_truncate2|].
  split; [done|].
  split; [intros d Hd; by rewrite truncate2_dot_index, Hd|].
  split; [apply chopDecimalPlaces_short|].
  split; [apply chopDecimalPlaces_no_dot|].
  repeat split; reflexivity.
Qed.

Lemma chopDecimalPlaces_two_decimals_witness :
  chopDecimalPlaces (buffer_of (lit "12.5")) = buffer_of (lit "12.5")
  /\ chopDecimalPlaces (buffer_of (lit "-7")) = buffer_of (lit "-7").
Proof.
  split.
  - destruct (chopDecimalPlaces_two_decimals (buffer_of (lit "12.5")))
      as (_ & _ & _ & Hshort & _).
    apply Hshort. vm_compute. lia.
  - destruct (chopDecimalPlaces_two_decimals (buffer_of (lit "-7")))
      as (_ & _ & _ & _ & Hnone & _).
    apply Hnone. reflexivity.
Defined.

(** C10.  The string left by [chopDecimalPlaces] is a prefix of the
    input string: the array is either untouched or gets a single NUL
    written inside the string, every other byte staying where it was.
    Applying the function twice gives what applying it once gives. *)
Theorem chopDecimalPlaces_prefix_idempotent (numStr : list ascii) :
  c_str (chopDecimalPlaces numStr) `prefix_of` c_str numStr
  /\ (chopDecimalPlaces numStr = numStr
      \/ exists k, k < strlen numStr
           /\ chopDecimalPlaces numStr = <[k := NUL]> numStr
           /\ c_str (chopDecimalPlaces numStr) = take k (c_str numStr))
  /\ chopDecimalPlaces (chopDecimalPlaces numStr) = chopDecimalPlaces numStr.
Proof.
  split; [|split].
  - rewrite c_str_chopDecimalPlaces, truncate2_dot_index.
    destruct (dot_index (c_str numStr)); [apply prefix_take|done].
  - rewrite chopDecimalPlaces_spec.
    destruct (dot_index (c_str numStr)) as [d|]; [|by left].
    case_decide; [right|by left].
    exists (d + 3). split; [done|]. split; [done|]. by apply c_str_insert_NUL.
  - apply chopDecimalPlaces_again.
Qed.

(** ** [marketOpen] *)

Lemma Zltb_ext (a b c d : Z) : (a < b <-> c < d)%Z -> (a <? b)%Z = (c <? d)%Z.
Proof.
  intros H. destruct (Z.ltb_spec a b), (Z.ltb_spec c d); try done; lia.
Qed.

(** What the code computes: the days cancel in both differences, and so
    do the seconds in the one with [closeTime]. *)
Lemma marketOpen_spec (timeinfo : tm) :
  marketOpen timeinfo =
    if (0 <? tm_wday timeinfo)%Z && (tm_wday timeinfo <? 7)%Z
    then Ok ((3600 * MARKET_OPEN_HR + 60 * MARKET_OPEN_MIN <? seconds_of_day timeinfo)%Z
             && (60 * tm_hour timeinfo + tm_min timeinfo
                 <? 60 * MARKET_CLOSE_HR + MARKET_CLOSE_MIN)%Z)
    else Undefined UninitializedRead.
Proof.
  unfold marketOpen.
  destruct ((0 <? tm_wday timeinfo)%Z && (tm_wday timeinfo <? 7)%Z); [|done].
  f_equal. f_equal; apply Zltb_ext;
    unfold difftime, mktime, seconds_of_day, MARKET_OPEN_HR, MARKET_OPEN_MIN,
      MARKET_CLOSE_HR, MARKET_CLOSE_MIN; cbn [tm_sec tm_min tm_hour tm_mday tm_mon tm_year];
    lia.
Qed.

(** C1.  The code at three times of the design's boundary list.  On
    Saturday 31 October 2026 at 10:00:00 [marketOpen] answers true,
    although Saturday is outside Monday to Friday; on Monday 2 November
    2026 at 09:30:00, the opening time itself, it answers false; at the
    closing time, 16:00:00, it answers false as the design asks.  More
    generally every Saturday time after 09:30:00 and before 16:00 is
    reported open. *)
Theorem marketOpen_saturday_and_boundaries :
  marketOpen saturday_10h = Ok true
  /\ market_hours saturday_10h = false
  /\ marketOpen monday_open = Ok false
  /\ market_hours monday_open = true
  /\ marketOpen monday_close = Ok false
  /\ market_hours monday_close = false
  /\ (forall sec min hour mday mon year,
        (3600 * 9 + 60 * 30 < 3600 * hour + 60 * min + sec)%Z ->
        (60 * hour + min < 60 * 16)%Z ->
        marketOpen (mk_tm sec min hour mday mon year 6) = Ok true).
Proof.
  repeat split; try reflexivity.
  intros sec min hour mday mon year Hopen Hclose.
  rewrite marketOpen_spec. cbn. f_equal.
  apply andb_true_iff. split; apply Z.ltb_lt;
    unfold seconds_of_day, MARKET_OPEN_HR, MARKET_OPEN_MIN, MARKET_CLOSE_HR,
      MARKET_CLOSE_MIN; cbn; lia.
Qed.

Lemma marketOpen_saturday_and_boundaries_witness :
  marketOpen (mk_tm 59 59 15 31 9 126 6) = Ok true.
Proof.
  apply marketOpen_saturday_and_boundaries; cbn; lia.
Defined.

Example marketOpen_weekday :
  marketOpen monday_10h = Ok true /\ market_hours monday_10h = true.
Proof. split; reflexivity. Qed.

(** C9.  On a Sunday ([tm_wday] is 0) the guarded assignment of
    [marketIsOpen] is skipped and [marketOpen] returns the variable
    without it ever having been written. *)
Theorem marketOpen_sunday_uninitialized (timeinfo : tm) :
  tm_wday timeinfo = 0%Z -> marketOpen timeinfo = Undefined UninitializedRead.
Proof. intros Hw. rewrite marketOpen_spec, Hw. reflexivity. Qed.

Lemma marketOpen_sunday_uninitialized_witness :
  marketOpen sunday_noon = Undefined UninitializedRead.
Proof. apply marketOpen_sunday_uninitialized. reflexivity. Defined.

(** ** [getQuote] *)




Section SketchProperties.

Context (stocks : list (list ascii)).

(** [getQuote] by cases, in the order of its tests. *)
Lemma getQuote_no_symbol srv i quotes :
  stocks !! i = None -> getQuote stocks srv i quotes = Undefined OutOfBounds.
Proof. unfold getQuote. by intros ->. Qed.

Lemma getQuote_unreachable srv i quotes :
  i < stocksLen stocks ->
  reachable srv = false -> getQuote stocks srv i quotes = Ok quotes.
Proof.
  intros Hi Hr. unfold getQuote.
  destruct (stocks !! i) eqn:Hsym; [by rewrite Hr|].
  apply lookup_ge_None in Hsym. unfold stocksLen in Hi. lia.
Qed.

Lemma getQuote_bad_status srv i quotes clientS symbol :
  stocks !! i = Some symbol ->
  reachable srv = true ->
  findUntil (lit "200 OK") [LF] (response srv) = (false, clientS) ->
  getQuote stocks srv i quotes = store_quote i (lit "Invalid Symbol") quotes.
Proof. unfold getQuote. by intros -> -> ->. Qed.

Lemma getQuote_no_data srv i quotes clientS symbol :
  stocks !! i = Some symbol ->
  reachable srv = true ->
  findUntil (lit "200 OK") [LF] (response srv) = (true, clientS) ->
  read_quoteData clientS = [] ->
  getQuote stocks srv i quotes = Ok quotes.
Proof. unfold getQuote. intros -> -> -> ->. done. Qed.

Lemma getQuote_data srv i quotes clientS symbol :
  stocks !! i = Some symbol ->
  reachable srv = true ->
  findUntil (lit "200 OK") [LF] (response srv) = (true, clientS) ->
  read_quoteData clientS <> [] ->
  getQuote stocks srv i quotes =
    '(price, change) ← scan_quote (read_quoteData clientS);
    store_quote i (quote_text symbol price change) quotes.
Proof.
  unfold getQuote. intros -> -> -> Hdata. cbn.
  by destruct (decide (read_quoteData clientS = [])).
Qed.

Lemma store_quote_in_bounds i text quotes :
  i < length quotes -> store_quote i text quotes = Ok (<[i := text]> quotes).
Proof. intros Hi. unfold store_quote. by rewrite decide_True. Qed.

Lemma store_quote_Ok i text quotes quotes' :
  store_quote i text quotes = Ok quotes' ->
  i < length quotes /\ quotes' = <[i := text]> quotes.
Proof. unfold store_quote. case_decide; [|done]. by intros [= <-]. Qed.



End SketchProperties.



Example getQuote_round_trip :
  getQuote stocks_main page_with_quote 0 no_quotes
  = Ok [lit "MSFT 45.67 -1.23"; []; []; []].
Proof. reflexivity. Qed.

Example getQuote_invalid_symbol :
  getQuote stocks_main page_not_found 2 no_quotes
  = Ok [[]; []; lit "Invalid Symbol"; []].
Proof. reflexivity. Qed.

(** ** Sign of the change *)

Lemma truncate2_head s : truncate2 s !! 0 = s !! 0.
Proof. destruct s as [|c s]; cbn; [done|]. by case_decide. Qed.

Lemma c_str_head buf c :
  c <> NUL -> (c_str buf !! 0 = Some c <-> buf !! 0 = Some c).
Proof.
  intros Hc. unfold c_str. destruct buf as [|b buf]; cbn; [done|].
  case_decide; cbn; [|done]. subst b. split; [done|]. intros [= ?]. congruence.
Qed.

(** C7.  [dir + change] as [getQuote] puts it in the quote text: with
    [v] the change value that is shown (the string of [change] after
    [chopDecimalPlaces]), it is [v] with a plus sign in front when
    [change] does not start with a minus sign, and [v] itself when it
    does; [v] starts with a minus sign exactly when [change] does.  For a
    value with at most two decimals [v] is the value as scanned: 1.23
    gives +1.23, and -1.23 stays -1.23.  This is the text that
    [getQuote] stores after the symbol and the price, at an index of
    [stocksQuotes]. *)
Theorem signed_change_sign (change : list ascii) :
  let v := c_str (chopDecimalPlaces change) in
  (change !! 0 <> Some "-"%char -> signed_change change = lit "+" ++ v)
  /\ (change !! 0 = Some "-"%char -> signed_change change = v)
  /\ (v !! 0 = Some "-"%char <-> change !! 0 = Some "-"%char)
  /\ v = truncate2 (c_str change)
  /\ (length (decimals (c_str change)) <= 2 -> v = c_str change)
  /\ (forall stocks srv i quotes clientS symbol price,
        reachable srv = true ->
        findUntil (lit "200 OK") [LF] (response srv) = (true, clientS) ->
        read_quoteData clientS <> [] ->
        scan_quote (read_quoteData clientS) = Ok (price, change) ->
        stocks !! i = Some symbol ->
        getQuote stocks srv i quotes
        = if decide (i < length quotes)
          then Ok (<[i := symbol ++ lit " " ++ c_str (chopDecimalPlaces price)
                          ++ lit " " ++ signed_change change]> quotes)
          else Undefined OutOfBounds)
  /\ signed_change (buffer_of (lit "1.23")) = lit "+1.23"
  /\ signed_change (buffer_of (lit "-1.23")) = lit "-1.23".
Proof.
  cbn zeta.
  split; [intros H; unfold signed_change; by rewrite decide_False|].
  split; [intros H; unfold signed_change; by rewrite decide_True|].
  split.
  { rewrite c_str_chopDecimalPlaces, truncate2_head. by apply c_str_head. }
  split; [apply c_str_chopDecimalPlaces|].
  split; [intros H; by rewrite chopDecimalPlaces_short|].
  split.
  { intros stocks srv i quotes clientS symbol price Hr Hok Hdata Hscan Hsym.
    rewrite (getQuote_data _ _ _ _ clientS symbol) by done.
    rewrite Hscan. done. }
  split; reflexivity.
Qed.

Lemma signed_change_sign_witness :
  signed_change (buffer_of (lit "0.07")) = lit "+" ++ lit "0.07"
  /\ signed_change (buffer_of (lit "-12.345")) = lit "-12.34".
Proof.
  split.
  - destruct (signed_change_sign (buffer_of (lit "0.07"))) as (Hplus & _).
    apply Hplus. vm_compute. congruence.
  - destruct (signed_change_sign (buffer_of (lit "-12.345"))) as (_ & Hminus & _).
    apply Hminus. reflexivity.
Defined.

(** ** [TaskGetQuotes] *)

Section FetchLoop.

Context (stocks : list (list ascii)).

Lemma TaskGetQuotes_iter_fetch timeinfo srv g stocksIndex open quotes :
  marketOpen timeinfo = Ok open ->
  open || negb (haveQuoteData g) = true ->
  getQuote stocks srv stocksIndex (stocksQuotes g) = Ok quotes ->
  stocksIndex < stocksLen stocks ->
  exists have,
    TaskGetQuotes_iter stocks timeinfo srv g stocksIndex
    = Ok (mk_globals quotes have, (stocksIndex + 1) mod stocksLen stocks).
Proof.
  intros Hopen Hfetch Hget Hlt. unfold TaskGetQuotes_iter.
  rewrite Hopen. cbn. rewrite Hfetch, Hget. cbn.
  case_decide as Hwrap.
  - exists true. rewrite Hwrap, Nat.Div0.mod_same. done.
  - exists (haveQuoteData g). rewrite Nat.mod_small by lia. done.
Qed.

Lemma TaskGetQuotes_poll_iter_fetch millis1 millis2 timeinfo srv g stocksIndex
    lastUpdateTime open quotes :
  (to_u32 (lastUpdateTime + intervalUpdate_poll) <? millis1)%Z = true ->
  marketOpen timeinfo = Ok open ->
  open || negb (haveQuoteData g) = true ->
  getQuote stocks srv stocksIndex (stocksQuotes g) = Ok quotes ->
  stocksIndex < stocksLen stocks ->
  exists have last,
    TaskGetQuotes_poll_iter stocks millis1 millis2 timeinfo srv g stocksIndex
      lastUpdateTime
    = Ok (mk_globals quotes have, (stocksIndex + 1) mod stocksLen stocks, last).
Proof.
  intros Hdue Hopen Hfetch Hget Hlt. unfold TaskGetQuotes_poll_iter.
  rewrite Hdue, Hopen. cbn. rewrite Hfetch, Hget. cbn.
  case_decide as Hwrap.
  - exists true, (to_i32 millis2). rewrite Hwrap, Nat.Div0.mod_same. done.
  - exists (haveQuoteData g), lastUpdateTime. rewrite Nat.mod_small by lia. done.
Qed.

(** C2, as the code has it.  In an iteration that calls [getQuote] (the
    market is open, or not every quote has been read yet) and in which
    the connection cannot be made, [stocksQuotes] stays as it was and
    [stocksIndex] moves on to the next symbol, to 0 after the last one,
    exactly as it does after any other return of [getQuote].  With more
    than one symbol the next fetch is therefore for another symbol.  This
    holds for the task of both sketches. *)
Theorem TaskGetQuotes_advances_on_connect_failure (timeinfo : tm) (srv : server)
    (g : globals) (stocksIndex : nat) (open : bool) :
  marketOpen timeinfo = Ok open ->
  open || negb (haveQuoteData g) = true ->
  reachable srv = false ->
  stocksIndex < stocksLen stocks ->
  let next := (stocksIndex + 1) mod stocksLen stocks in
  (exists have,
     TaskGetQuotes_iter stocks timeinfo srv g stocksIndex
     = Ok (mk_globals (stocksQuotes g) have, next))
  /\ (forall millis1 millis2 lastUpdateTime,
        (to_u32 (lastUpdateTime + intervalUpdate_poll) <? millis1)%Z = true ->
        exists have last,
          TaskGetQuotes_poll_iter stocks millis1 millis2 timeinfo srv g stocksIndex
            lastUpdateTime
          = Ok (mk_globals (stocksQuotes g) have, next, last))
  /\ (forall srv' quotes,
        getQuote stocks srv' stocksIndex (stocksQuotes g) = Ok quotes ->
        exists have,
          TaskGetQuotes_iter stocks timeinfo srv' g stocksIndex
          = Ok (mk_globals quotes have, next))
  /\ (1 < stocksLen stocks -> next <> stocksIndex).
Proof.
  intros Hopen Hfetch Hdown Hlt next.
  pose proof (getQuote_unreachable stocks srv stocksIndex (stocksQuotes g) Hlt Hdown)
    as Hget.
  split; [by eapply TaskGetQuotes_iter_fetch|].
  split; [intros; by eapply TaskGetQuotes_poll_iter_fetch|].
  split; [intros; by eapply TaskGetQuotes_iter_fetch|].
  intros Hmany. unfold next.
  destruct (decide (stocksIndex + 1 = stocksLen stocks)) as [Hwrap|Hwrap].
  - rewrite Hwrap, Nat.Div0.mod_same. lia.
  - rewrite Nat.mod_small by lia. lia.
Qed.

End FetchLoop.

Lemma TaskGetQuotes_advances_on_connect_failure_witness :
  exists have,
    TaskGetQuotes_iter stocks_main monday_10h unreachable_server
      (mk_globals no_quotes false) 3
    = Ok (mk_globals no_quotes have, 0).
Proof.
  destruct (TaskGetQuotes_advances_on_connect_failure stocks_main monday_10h
              unreachable_server (mk_globals no_quotes false) 3 true) as (H & _);
    [reflexivity | reflexivity | reflexivity | vm_compute; lia |].
  exact H.
Defined.

(** C2, as the design states it, fails: with the server out of reach the
    iteration at index 0 ends at index 1, not at 0, in both sketches. *)
Lemma TaskGetQuotes_no_retry_counterexample :
  reachable unreachable_server = false
  /\ TaskGetQuotes_iter stocks_main monday_10h unreachable_server
       (mk_globals no_quotes false) 0
     = Ok (mk_globals no_quotes false, 1)
  /\ TaskGetQuotes_poll_iter stocks_main 1 2 monday_10h unreachable_server
       (mk_globals no_quotes false) 0 (-120000)
     = Ok (mk_globals no_quotes false, 1, (-120000)%Z)
  /\ ~ (exists g, TaskGetQuotes_iter stocks_main monday_10h unreachable_server
                    (mk_globals no_quotes false) 0 = Ok (g, 0)).
Proof.
  split; [reflexivity|]. split; [reflexivity|]. split; [reflexivity|].
  intros [g Hg]. vm_compute in Hg. congruence.
Qed.

(** ** [TaskControl] *)

(** One iteration: calls are made exactly when the hour region differs
    from [displayOn], and [displayOn] then follows the region. *)
Lemma TaskControl_iter_spec timeinfo displayOn :
  TaskControl_iter timeinfo displayOn =
    (if decide (active timeinfo = displayOn) then []
     else if active timeinfo then resume_calls else suspend_calls,
     active timeinfo).
Proof.
  unfold TaskControl_iter. by destruct (active timeinfo), displayOn.
Qed.

Lemma TaskControl_run_length times displayOn :
  length (TaskControl_run times displayOn).1 = length times.
Proof.
  revert displayOn. induction times as [|t times IH]; intros d; cbn; [done|].
  destruct (TaskControl_iter t d) as [calls d'].
  specialize (IH d'). destruct (TaskControl_run times d'). cbn in *. lia.
Qed.

(** A series of iterations that starts in its own region makes no call
    at all. *)
Lemma TaskControl_run_quiet times region :
  Forall (fun t => active t = region) times ->
  TaskControl_run times region = (replicate (length times) [], region).
Proof.
  induction 1 as [|t times Ht _ IH]; cbn; [done|].
  rewrite TaskControl_iter_spec, Ht, decide_True by done.
  by rewrite IH.
Qed.

Lemma TaskControl_run_region t times displayOn :
  Forall (fun t' => active t' = active t) times ->
  TaskControl_run (t :: times) displayOn =
    ((TaskControl_iter t displayOn).1 :: replicate (length times) [], active t).
Proof.
  intros Hreg. cbn. rewrite TaskControl_iter_spec.
  by rewrite TaskControl_run_quiet.
Qed.

Lemma count_call_quiet c n : count_call c (replicate n []) = 0.
Proof.
  unfold count_call. induction n as [|n IH]; cbn; [done|]. exact IH.
Qed.

Lemma count_call_cons c calls later :
  count_call c (calls :: later) = count_call c [calls] + count_call c later.
Proof.
  unfold count_call. cbn. rewrite app_nil_r, filter_app, length_app. done.
Qed.

(** The calls at position [k] of a series, from the state before it. *)
Lemma TaskControl_run_lookup times displayOn k t :
  times !! k = Some t ->
  let before := match k with
                | O => displayOn
                | S k' => from_option active displayOn (times !! k')
                end in
  (TaskControl_run times displayOn).1 !! k
  = Some (TaskControl_iter t before).1.
Proof.
  revert displayOn k. induction times as [|t0 times IH]; intros d k; [done|].
  cbn [TaskControl_run]. rewrite TaskControl_iter_spec.
  destruct (TaskControl_run times (active t0)) as [later d'] eqn:Hrun.
  destruct k as [|k]; cbn.
  - intros [= ->]. by rewrite TaskControl_iter_spec.
  - intros Hk. specialize (IH (active t0) k Hk). rewrite Hrun in IH. cbn in IH.
    destruct k as [|k]; cbn; [done|].
    destruct (times !! k) eqn:Hk'; [done|].
    apply lookup_ge_None in Hk'. apply lookup_lt_Some in Hk. lia.
Qed.

(** C8.  In a series of consecutive iterations of [TaskControl] whose
    hours all lie in the same region (all inside the active hours, or all
    outside), only the first iteration can make calls: every later one
    makes none, each task is suspended at most once and resumed at most
    once in the whole series, and when [displayOn] already agrees with
    the region no call is made at all.  In any series, an iteration makes
    calls exactly when its region differs from the region of the
    iteration before it (from the initial [displayOn] for the first
    one). *)
Theorem TaskControl_calls_only_on_transition (times : list tm) (displayOn : bool) :
  let calls := (TaskControl_run times displayOn).1 in
  length calls = length times
  /\ (forall region,
        Forall (fun t => active t = region) times ->
        (forall k, 0 < k -> k < length times -> calls !! k = Some [])
        /\ (forall h, count_call (vTaskSuspend h) calls <= 1
                      /\ count_call (vTaskResume h) calls <= 1)
        /\ (displayOn = region -> forall k, k < length times -> calls !! k = Some []))
  /\ (forall k t,
        times !! k = Some t ->
        let before := match k with
                      | O => displayOn
                      | S k' => from_option active displayOn (times !! k')
                      end in
        calls !! k = Some (if decide (active t = before) then []
                           else if active t then resume_calls else suspend_calls)).
Proof.
  cbn zeta. split; [apply TaskControl_run_length|]. split.
  - intros region Hreg. destruct times as [|t times].
    { split; [cbn; lia|]. split; [intros h; cbn; lia|]. cbn. lia. }
    apply Forall_cons in Hreg as [Ht Hreg].
    rewrite TaskControl_run_region by (by rewrite Ht). cbn [fst].
    split; [|split].
    + intros [|k] ? Hk; [lia|]. cbn in *. apply lookup_replicate_2. lia.
    + intros h. rewrite !(count_call_cons _ _ (replicate _ _)), !count_call_quiet.
      rewrite TaskControl_iter_spec. cbn [fst].
      destruct (decide (active t = displayOn)); [cbn; lia|].
      destruct (active t), h; vm_compute; lia.
    + intros -> [|k] Hk; cbn in *.
      * by rewrite TaskControl_iter_spec, decide_True.
      * apply lookup_replicate_2. lia.
  - intros k t Hk. rewrite (TaskControl_run_lookup _ _ _ t Hk).
    by rewrite TaskControl_iter_spec.
Qed.

Lemma TaskControl_calls_only_on_transition_witness :
  (TaskControl_run (drop 1 evening) true).1 !! 1 = Some []
  /\ count_call (vTaskSuspend TaskDisplayH) (TaskControl_run (drop 1 evening) true).1 <= 1
  /\ (TaskControl_run evening true).1 !! 1 = Some suspend_calls.
Proof.
  destruct (TaskControl_calls_only_on_transition (drop 1 evening) true)
    as (_ & Hregion & _).
  destruct (Hregion false) as (Hlater & Hcount & _).
  { repeat constructor. }
  split; [apply Hlater; cbn; lia|].
  split; [apply Hcount|].
  destruct (TaskControl_calls_only_on_transition evening true) as (_ & _ & Hstep).
  apply (Hstep 1 (mk_tm 0 0 19 2 10 126 1)). reflexivity.
Defined.

(** ** [TaskDisplay] *)

Lemma strftime_banner_not_empty timeinfo : strftime_banner timeinfo <> [].
Proof. unfold strftime_banner. done. Qed.

Lemma length_dec n : 1 <= length (dec n).
Proof.
  unfold dec, DecimalString.NilZero.string_of_uint.
  destruct (N.to_uint (Z.to_N n)); cbn; lia.
Qed.

Lemma length_month_name m :
  m < 12 -> 3 <= length (default [] (month_names !! m)).
Proof.
  intros Hm. do 12 (destruct m as [|m]; [cbn; lia|]). lia.
Qed.

Lemma strftime_banner_long timeinfo :
  (0 <= tm_mon timeinfo < 12)%Z -> 31 <= length (strftime_banner timeinfo).
Proof.
  intros Hmon. unfold strftime_banner. rewrite !length_app.
  pose proof (length_dec (1900 + tm_year timeinfo)).
  pose proof (length_month_name (Z.to_nat (tm_mon timeinfo))) as Hname.
  assert (length (if (tm_hour timeinfo <? 12)%Z then lit "AM" else lit "PM") = 2)
    as -> by (by destruct (tm_hour timeinfo <? 12)%Z).
  cbn [dec2 length lit String.list_ascii_of_string]. lia.
Qed.

(** With a month from January to December the banner does not fit. *)
Lemma strftime_dateTime_overflow timeinfo :
  (0 <= tm_mon timeinfo < 12)%Z ->
  strftime_dateTime timeinfo = Undefined BufferOverflow.
Proof.
  intros Hmon. unfold strftime_dateTime, dateTime_size. cbn zeta.
  pose proof (strftime_banner_long timeinfo Hmon).
  case_decide; [lia|done].
Qed.

Lemma strftime_dateTime_Ok timeinfo text :
  strftime_dateTime timeinfo = Ok text -> text = strftime_banner timeinfo.
Proof. unfold strftime_dateTime. cbn zeta. case_decide; [|done]. by intros [= <-]. Qed.

Lemma load_displayText_length quotes displayText have :
  length displayText + 2 * length quotes
  <= length (load_displayText quotes displayText have).1.
Proof.
  revert displayText have.
  induction quotes as [|quote quotes IH]; intros displayText have; cbn; [lia|].
  case_decide.
  - etrans; [|apply IH]. rewrite length_app. cbn. lia.
  - etrans; [|apply IH]. rewrite !length_app. cbn. lia.
Qed.

Lemma TaskDisplay_init_ok g : stocksQuotes g <> [] -> ticker_ok (TaskDisplay_init g).2.
Proof.
  intros Hq. unfold TaskDisplay_init.
  pose proof (load_displayText_length (stocksQuotes g) [] (haveQuoteData g)) as Hlen.
  destruct (load_displayText (stocksQuotes g) [] (haveQuoteData g)) as [text have].
  cbn in *. split; cbn.
  - intros ->. destruct (stocksQuotes g); [done|]. cbn in Hlen. lia.
  - rewrite length_app. cbn. lia.
Qed.

Lemma segment_not_empty quote : segment quote <> [].
Proof.
  unfold segment. case_decide; [done|]. by destruct quote.
Qed.

Section Ticker.

Context (stocks : list (list ascii)).

(** The three kinds of iteration: inside a segment, at the end of a
    segment, and at the end of a segment on the turn of the banner. *)
Lemma TaskDisplay_tick_inside timeinfo quotes t :
  nPos t + 1 <> length (nextUp t) ->
  TaskDisplay_tick stocks timeinfo quotes t =
    let tape := drop 1 (displayText t) ++ [charAt (nextUp t) (nPos t)] in
    Ok (mk_ticker tape (quoteCnt t) (index t) (nPos t + 1) (nextUp t),
        take displayWidth tape).
Proof. intros Hin. unfold TaskDisplay_tick. cbn zeta. by rewrite decide_False. Qed.

Lemma TaskDisplay_tick_rotate timeinfo quotes t :
  nPos t + 1 = length (nextUp t) ->
  (quoteCnt t + 1) mod DISP_DATE_CNT <> 0 ->
  TaskDisplay_tick stocks timeinfo quotes t =
    let tape := drop 1 (displayText t) ++ [charAt (nextUp t) (nPos t)] in
    let index' := (index t + 1) mod stocksLen stocks in
    Ok (mk_ticker tape ((quoteCnt t + 1) mod DISP_DATE_CNT) index' 0
          (segment (quote_at quotes index')),
        take displayWidth tape).
Proof.
  intros Hend Hcnt. unfold TaskDisplay_tick, segment. cbn zeta.
  rewrite decide_True by done. rewrite decide_False by done.
  by case_decide.
Qed.

Lemma TaskDisplay_tick_banner timeinfo quotes t :
  nPos t + 1 = length (nextUp t) ->
  (quoteCnt t + 1) mod DISP_DATE_CNT = 0 ->
  TaskDisplay_tick stocks timeinfo quotes t =
    let tape := drop 1 (displayText t) ++ [charAt (nextUp t) (nPos t)] in
    nextUp' ← strftime_dateTime timeinfo;
    Ok (mk_ticker tape 0 ((index t + 1) mod stocksLen stocks) 0 nextUp',
        take displayWidth tape).
Proof.
  intros Hend Hcnt. unfold TaskDisplay_tick. cbn zeta.
  rewrite decide_True by done. rewrite Hcnt. rewrite decide_True by done.
  by destruct (strftime_dateTime timeinfo).
Qed.

Lemma Ok_pair_inv {A B : Type} (x y : A) (u v : B) :
  @Ok (A * B) (x, u) = Ok (y, v) -> y = x /\ v = u.
Proof. intros H. split; congruence. Qed.

(** What an iteration that returns has done. *)
Lemma TaskDisplay_tick_Ok timeinfo quotes t t' drawn :
  TaskDisplay_tick stocks timeinfo quotes t = Ok (t', drawn) ->
  displayText t' = drop 1 (displayText t) ++ [charAt (nextUp t) (nPos t)]
  /\ drawn = take displayWidth (displayText t')
  /\ (ticker_ok t -> ticker_ok t')
  /\ ((exists n, index t = n mod stocksLen stocks /\ quoteCnt t = n mod DISP_DATE_CNT) ->
      exists n, index t' = n mod stocksLen stocks /\ quoteCnt t' = n mod DISP_DATE_CNT).
Proof.
  intros Htick.
  assert (Htape : forall text, text ++ [charAt (nextUp t) (nPos t)] <> []).
  { intros text. by destruct text. }
  assert (Hnext : forall n, index t = n mod stocksLen stocks ->
                            quoteCnt t = n mod DISP_DATE_CNT ->
            (index t + 1) mod stocksLen stocks = (n + 1) mod stocksLen stocks
            /\ (quoteCnt t + 1) mod DISP_DATE_CNT = (n + 1) mod DISP_DATE_CNT).
  { intros n -> ->. by rewrite !Nat.Div0.add_mod_idemp_l. }
  destruct (decide (nPos t + 1 = length (nextUp t))) as [Hend|Hin].
  - destruct (decide ((quoteCnt t + 1) mod DISP_DATE_CNT = 0)) as [Hcnt|Hcnt].
    + rewrite TaskDisplay_tick_banner in Htick by done. cbn zeta in Htick.
      destruct (strftime_dateTime timeinfo) as [text|] eqn:Htext; cbn in Htick; [|done].
      apply Ok_pair_inv in Htick as [-> ->]. cbn [displayText index quoteCnt nPos nextUp]. split; [done|]. split; [done|]. split.
      * intros _. split; [apply Htape|]. cbn [displayText index quoteCnt nPos nextUp].
        apply strftime_dateTime_Ok in Htext as ->.
        pose proof (strftime_banner_not_empty timeinfo).
        destruct (strftime_banner timeinfo); [done|cbn [length]; lia].
      * intros [n [Hi Hc]]. exists (n + 1).
        destruct (Hnext n Hi Hc) as [-> Hq]. by rewrite <- Hq, Hcnt.
    + rewrite TaskDisplay_tick_rotate in Htick by done. cbn zeta in Htick.
      apply Ok_pair_inv in Htick as [-> ->]. cbn [displayText index quoteCnt nPos nextUp]. split; [done|]. split; [done|]. split.
      * intros _. split; [apply Htape|]. cbn [displayText index quoteCnt nPos nextUp].
        pose proof (segment_not_empty
                      (quote_at quotes ((index t + 1) mod stocksLen stocks))).
        destruct (segment _); [done|cbn [length]; lia].
      * intros [n [Hi Hc]]. exists (n + 1). by destruct (Hnext n Hi Hc) as [-> ->].
  - rewrite TaskDisplay_tick_inside in Htick by done. cbn zeta in Htick.
    apply Ok_pair_inv in Htick as [-> ->]. cbn [displayText index quoteCnt nPos nextUp]. split; [done|]. split; [done|]. split.
    + intros [_ Hpos]. split; [apply Htape|]. cbn [displayText index quoteCnt nPos nextUp]. lia.
    + done.
Qed.

Lemma TaskDisplay_run_Ok env t t' :
  TaskDisplay_run stocks env t = Ok t' ->
  (ticker_ok t -> ticker_ok t' /\ length (displayText t') = length (displayText t))
  /\ ((exists n, index t = n mod stocksLen stocks /\ quoteCnt t = n mod DISP_DATE_CNT) ->
      exists n, index t' = n mod stocksLen stocks /\ quoteCnt t' = n mod DISP_DATE_CNT).
Proof.
  revert t. induction env as [|[timeinfo quotes] env IH]; intros t; cbn [TaskDisplay_run].
  { by intros [= <-]. }
  destruct (TaskDisplay_tick stocks timeinfo quotes t) as [[t1 drawn]|] eqn:Htick;
    cbn; [|done].
  intros Hrun. destruct (TaskDisplay_tick_Ok _ _ _ _ _ Htick) as (Htape & _ & Hok & Hn).
  destruct (IH t1 Hrun) as [Hok' Hn']. split; [|auto].
  intros Ht. destruct (Hok' (Hok Ht)) as [Hok1 Hlen]. split; [done|].
  rewrite Hlen, Htape, length_app, length_drop.
  destruct Ht as [Hne _]. destruct (displayText t); [done|]. cbn. lia.
Qed.

Lemma TaskDisplay_run_app env1 env2 t :
  TaskDisplay_run stocks (env1 ++ env2) t
  = t1 ← TaskDisplay_run stocks env1 t; TaskDisplay_run stocks env2 t1.
Proof.
  revert t. induction env1 as [|[timeinfo quotes] env1 IH]; intros t; cbn; [done|].
  destruct (TaskDisplay_tick stocks timeinfo quotes t) as [[t1 drawn]|]; cbn; [|done].
  apply IH.
Qed.

(** Fewer iterations than there are characters left in the segment:
    they return, the characters go onto the tape one by one, and the
    segment and the two counters stay. *)
Lemma TaskDisplay_run_inside env t :
  displayText t <> [] ->
  nPos t + length env < length (nextUp t) ->
  TaskDisplay_run stocks env t
  = Ok (mk_ticker
          (drop (length env)
             (displayText t ++ take (length env) (drop (nPos t) (nextUp t))))
          (quoteCnt t) (index t) (nPos t + length env) (nextUp t)).
Proof.
  revert t. induction env as [|[timeinfo quotes] env IH]; intros t Htext Hlen.
  { cbn. rewrite app_nil_r, Nat.add_0_r. by destruct t. }
  cbn [TaskDisplay_run length] in *.
  rewrite TaskDisplay_tick_inside by lia. cbn.
  assert (Hc : nextUp t !! nPos t = Some (charAt (nextUp t) (nPos t))).
  { unfold charAt. destruct (nextUp t !! nPos t) eqn:Hc; [done|].
    apply lookup_ge_None in Hc. lia. }
  rewrite IH; cbn.
  - rewrite (drop_S _ _ _ Hc). cbn [take].
    replace (nPos t + 1 + length env) with (nPos t + S (length env)) by lia.
    rewrite Nat.add_1_r. do 2 f_equal.
    destruct (displayText t) as [|a text]; [done|].
    cbn. by rewrite drop_0, <- app_assoc.
  - by destruct (drop 1 (displayText t)).
  - lia.
Qed.

End Ticker.

(** The state of the ticker of [before_banner]: 19 segments have been
    started and one character of the current one is left. *)
Lemma TaskDisplay_run_before_banner :
  TaskDisplay_run stocks_main before_banner
    (TaskDisplay_init (mk_globals no_quotes false)).2
  = Ok (mk_ticker
          (lit " " ++ updatingMsg ++ updatingMsg ++ updatingMsg ++ take 22 updatingMsg)
          19 3 22 updatingMsg).
Proof. vm_compute. reflexivity. Qed.

(** C5.  In every state that the ticker reaches from its start, an
    iteration that is not the turn of the date banner returns: it drops
    the first character of the tape and appends the character of
    [nextUp] at [nPos], so the tape keeps its length, and the index
    moves to the next quote exactly when that character was the last of
    the segment.  The iteration that ends a segment on the turn of the
    date banner (every twentieth segment) has [strftime] write the banner
    and its NUL, with a limit of 80 bytes, into the 30 bytes of
    [dateTime]; with a month from January to December the banner has
    more than 30 characters, so the write runs past the array and
    nothing is guaranteed about the tape or the index afterwards.  With
    the four symbols of [StockTicker.ino] and no quote yet, the first 438
    iterations from the start return (the tape has kept its 92
    characters and the index has reached 3), and the 439th is that
    turn. *)
Theorem TaskDisplay_banner_turn_overflows :
  (forall stocks g env0 t timeinfo quotes,
     stocksQuotes g <> [] ->
     TaskDisplay_run stocks env0 (TaskDisplay_init g).2 = Ok t ->
     (nPos t + 1 = length (nextUp t) -> (quoteCnt t + 1) mod DISP_DATE_CNT <> 0) ->
     exists t' drawn,
       TaskDisplay_tick stocks timeinfo quotes t = Ok (t', drawn)
       /\ nextUp t !! nPos t = Some (charAt (nextUp t) (nPos t))
       /\ displayText t' = drop 1 (displayText t) ++ [charAt (nextUp t) (nPos t)]
       /\ length (displayText t') = length (displayText t)
       /\ drawn = take displayWidth (displayText t')
       /\ index t' = (if decide (nPos t + 1 = length (nextUp t))
                      then (index t + 1) mod stocksLen stocks else index t))
  /\ (forall stocks timeinfo quotes t,
        nPos t + 1 = length (nextUp t) ->
        (quoteCnt t + 1) mod DISP_DATE_CNT = 0 ->
        (0 <= tm_mon timeinfo < 12)%Z ->
        TaskDisplay_tick stocks timeinfo quotes t = Undefined BufferOverflow)
  /\ (exists t,
        TaskDisplay_run stocks_main before_banner
          (TaskDisplay_init (mk_globals no_quotes false)).2 = Ok t
        /\ length (displayText t)
           = length (displayText (TaskDisplay_init (mk_globals no_quotes false)).2)
        /\ index t = 3 /\ quoteCnt t = 19
        /\ nPos t + 1 = length (nextUp t)
        /\ TaskDisplay_tick stocks_main monday_10h no_quotes t
           = Undefined BufferOverflow)
  /\ TaskDisplay_run stocks_main (before_banner ++ [(monday_10h, no_quotes)])
       (TaskDisplay_init (mk_globals no_quotes false)).2
     = Undefined BufferOverflow.
Proof.
  assert (Hturn : forall stocks timeinfo quotes t,
            nPos t + 1 = length (nextUp t) ->
            (quoteCnt t + 1) mod DISP_DATE_CNT = 0 ->
            (0 <= tm_mon timeinfo < 12)%Z ->
            TaskDisplay_tick stocks timeinfo quotes t = Undefined BufferOverflow).
  { intros stocks timeinfo quotes t Hend Hcnt Hmon.
    rewrite TaskDisplay_tick_banner by done. cbn zeta.
    by rewrite strftime_dateTime_overflow. }
  split; [|split; [exact Hturn|split]].
  - intros stocks g env0 t timeinfo quotes Hg Ht Hnot.
    assert (Hok : ticker_ok t).
    { destruct (TaskDisplay_run_Ok _ _ _ _ Ht) as [Hok _]. apply Hok.
      by apply TaskDisplay_init_ok. }
    assert (Htick : exists t' drawn,
              TaskDisplay_tick stocks timeinfo quotes t = Ok (t', drawn)
              /\ index t' = (if decide (nPos t + 1 = length (nextUp t))
                             then (index t + 1) mod stocksLen stocks else index t)).
    { case_decide as Hend.
      - rewrite TaskDisplay_tick_rotate by auto. cbn zeta. by eexists _, _.
      - rewrite TaskDisplay_tick_inside by done. cbn zeta. by eexists _, _. }
    destruct Htick as (t' & drawn & Htick & Hindex). exists t', drawn.
    destruct (TaskDisplay_tick_Ok _ _ _ _ _ _ Htick) as (Htape & Hdrawn & _).
    destruct Hok as [Htext Hpos].
    split; [done|]. split.
    { unfold charAt. destruct (nextUp t !! nPos t) eqn:Hc; [done|].
      apply lookup_ge_None in Hc. lia. }
    split; [done|]. split; [|done].
    rewrite Htape, length_app, length_drop.
    destruct (displayText t); [done|]. cbn. lia.
  - eexists. split; [apply TaskDisplay_run_before_banner|].
    split; [reflexivity|]. split; [reflexivity|]. split; [reflexivity|].
    split; [reflexivity|].
    apply Hturn; [reflexivity | reflexivity | cbn; lia].
  - rewrite TaskDisplay_run_app, TaskDisplay_run_before_banner. cbn [mbind outcome_bind].
    cbn [TaskDisplay_run]. rewrite Hturn; [done | reflexivity | reflexivity | cbn; lia].
Qed.

Lemma TaskDisplay_banner_turn_overflows_witness :
  TaskDisplay_tick stocks_main monday_10h quotes_with_msft
    (mk_ticker
       (lit " " ++ updatingMsg ++ updatingMsg ++ updatingMsg ++ take 22 updatingMsg)
       19 3 22 updatingMsg)
  = Undefined BufferOverflow
  /\ exists t' drawn,
       TaskDisplay_tick stocks_main monday_10h no_quotes
         (TaskDisplay_init (mk_globals no_quotes false)).2 = Ok (t', drawn)
       /\ length (displayText t')
          = length (displayText (TaskDisplay_init (mk_globals no_quotes false)).2).
Proof.
  destruct TaskDisplay_banner_turn_overflows as (Hstep & Hturn & _).
  split.
  - apply Hturn; [reflexivity | reflexivity | cbn; lia].
  - destruct (Hstep stocks_main (mk_globals no_quotes false) []
                (TaskDisplay_init (mk_globals no_quotes false)).2 monday_10h no_quotes)
      as (t' & drawn & Htick & _ & _ & Hlen & _).
    + done.
    + reflexivity.
    + intros Hend. vm_compute in Hend. lia.
    + by exists t', drawn.
Defined.

Example TaskDisplay_first_tick :
  TaskDisplay_tick stocks_main monday_10h no_quotes
    (TaskDisplay_init (mk_globals no_quotes true)).2
  = Ok (mk_ticker (drop 1 (updatingMsg ++ updatingMsg ++ updatingMsg ++ updatingMsg)
                   ++ lit " ") 0 0 1 spacer,
        lit "PDATING.......")
  /\ haveQuoteData (TaskDisplay_init (mk_globals no_quotes true)).1 = false.
Proof. split; reflexivity. Qed.

(** ** A quote without a price *)

Lemma quote_text_not_empty symbol price change : quote_text symbol price change <> [].
Proof. unfold quote_text. by destruct symbol. Qed.

Section EmptyPrice.

Context (stocks : list (list ascii)).

(** C6, as the code has it.  When the scan leaves [price] empty,
    [getQuote] still writes the entry: the symbol, two spaces and the
    signed change, a text that is never empty.  When the ticker moves to
    an index on a turn that is not the turn of the date banner, it shows
    the entry followed by the spacer whenever the entry is not empty, and
    the updating message only for an empty entry; so the entry without a
    price is shown as it is. *)
Theorem empty_price_is_shown (symbol price change : list ascii) (timeinfo : tm)
    (quotes : list (list ascii)) (t : ticker) :
  c_str price = [] ->
  let text := quote_text symbol price change in
  text = symbol ++ lit "  " ++ signed_change change
  /\ text <> []
  /\ (forall srv i quotes0 clientS,
        reachable srv = true ->
        findUntil (lit "200 OK") [LF] (response srv) = (true, clientS) ->
        read_quoteData clientS <> [] ->
        scan_quote (read_quoteData clientS) = Ok (price, change) ->
        stocks !! i = Some symbol ->
        getQuote stocks srv i quotes0
        = if decide (i < length quotes0) then Ok (<[i := text]> quotes0)
          else Undefined OutOfBounds)
  /\ (nPos t + 1 = length (nextUp t) ->
      (quoteCnt t + 1) mod DISP_DATE_CNT <> 0 ->
      exists t' drawn,
        TaskDisplay_tick stocks timeinfo quotes t = Ok (t', drawn)
        /\ index t' = (index t + 1) mod stocksLen stocks
        /\ (quotes !! index t' = Some text -> nextUp t' = text ++ spacer)
        /\ (quote_at quotes (index t') <> [] ->
            nextUp t' = quote_at quotes (index t') ++ spacer)
        /\ (quote_at quotes (index t') = [] -> nextUp t' = updatingMsg)).
Proof.
  intros Hprice text.
  assert (Htext : text = symbol ++ lit "  " ++ signed_change change).
  { unfold text, quote_text. rewrite c_str_chopDecimalPlaces, Hprice. done. }
  split; [done|]. split; [apply quote_text_not_empty|]. split.
  - intros srv i quotes0 clientS Hr Hok Hdata Hscan Hsym.
    rewrite (getQuote_data _ _ _ _ clientS symbol) by done.
    rewrite Hscan. done.
  - intros Hend Hcnt.
    rewrite TaskDisplay_tick_rotate by done. cbn zeta.
    eexists _, _. split; [done|]. cbn [index nextUp]. split; [done|].
    set (i' := (index t + 1) mod stocksLen stocks).
    assert (Hshown : quote_at quotes i' <> [] ->
                     segment (quote_at quotes i') = quote_at quotes i' ++ spacer).
    { intros Hne. unfold segment. rewrite decide_False; [done|].
      by destruct (quote_at quotes i'). }
    split; [|split; [done|]].
    + intros Hq. unfold quote_at in Hshown |- *. rewrite Hq in Hshown |- *.
      cbn in Hshown |- *. apply Hshown, quote_text_not_empty.
    + intros Hq. rewrite Hq. done.
Qed.

End EmptyPrice.

Lemma empty_price_is_shown_witness :
  quote_text (lit "AAPL") (replicate 16 NUL) (buffer_of (lit "1.5"))
  = lit "AAPL" ++ lit "  " ++ signed_change (buffer_of (lit "1.5")).
Proof.
  destruct (empty_price_is_shown stocks_main (lit "AAPL") (replicate 16 NUL)
              (buffer_of (lit "1.5")) monday_10h no_quotes
              (TaskDisplay_init (mk_globals no_quotes false)).2) as (Htext & _).
  - reflexivity.
  - exact Htext.
Defined.

(** C6, as the design states it, fails: the page has no price, the scan
    leaves [price] empty, and the ticker, on reaching index 1, shows the
    entry and not the updating message. *)
Lemma empty_price_placeholder_counterexample :
  (exists price change,
     scan_quote data_without_price = Ok (price, change) /\ c_str price = [])
  /\ getQuote stocks_main page_without_price 1 no_quotes = Ok quotes_without_price
  /\ (exists t,
        TaskDisplay_run stocks_main
          [(monday_10h, quotes_without_price); (monday_10h, quotes_without_price)]
          (TaskDisplay_init (mk_globals quotes_without_price false)).2 = Ok t
        /\ index t = 1 /\ nPos t = 0 /\ nextUp t = lit "AAPL  +1.5  "
        /\ nextUp t <> updatingMsg).
Proof.
  split.
  { eexists _, _. split; [vm_compute; reflexivity|reflexivity]. }
  split; [reflexivity|].
  eexists. split; [vm_compute; reflexivity|].
  cbn [index nPos nextUp]. split; [reflexivity|]. split; [reflexivity|].
  split; [reflexivity|]. vm_compute. congruence.
Qed.

(** * Further properties of the sketches *)

(** ** [marketOpen], on every day but Sunday *)

(** X1.  From Monday to Saturday [marketOpen] returns a value, and the
    value is true exactly when the time of day is after 09:30:00 and its
    hour and minute are before 16:00; the date plays no part, and
    neither do the seconds at the closing end, although [closeTime]
    keeps the seconds of [now]. *)
Theorem marketOpen_window (timeinfo : tm) :
  (1 <= tm_wday timeinfo <= 6)%Z ->
  exists b,
    marketOpen timeinfo = Ok b
    /\ (b = true <->
        (3600 * 9 + 60 * 30 < seconds_of_day timeinfo
         /\ 60 * tm_hour timeinfo + tm_min timeinfo < 60 * 16)%Z).
Proof.
  intros Hday. rewrite marketOpen_spec.
  assert ((0 <? tm_wday timeinfo)%Z && (tm_wday timeinfo <? 7)%Z = true) as ->.
  { apply andb_true_iff. split; apply Z.ltb_lt; lia. }
  eexists. split; [done|].
  rewrite andb_true_iff, !Z.ltb_lt.
  unfold MARKET_OPEN_HR, MARKET_OPEN_MIN, MARKET_CLOSE_HR, MARKET_CLOSE_MIN. lia.
Qed.

Lemma marketOpen_window_witness :
  exists b,
    marketOpen monday_10h = Ok b
    /\ (b = true <->
        (3600 * 9 + 60 * 30 < seconds_of_day monday_10h
         /\ 60 * tm_hour monday_10h + tm_min monday_10h < 60 * 16)%Z).
Proof. apply marketOpen_window. cbn. lia. Defined.

(** X2.  From Monday to Friday, with seconds below 60, [marketOpen]
    agrees with the window of the design (opening time included, closing
    time excluded) at every time but 09:30:00 itself, where it answers
    false. *)
Theorem marketOpen_weekday_agreement (timeinfo : tm) :
  (1 <= tm_wday timeinfo <= 5)%Z ->
  (0 <= tm_sec timeinfo < 60)%Z ->
  (seconds_of_day timeinfo <> (3600 * 9 + 60 * 30)%Z ->
   marketOpen timeinfo = Ok (market_hours timeinfo))
  /\ (seconds_of_day timeinfo = (3600 * 9 + 60 * 30)%Z ->
      marketOpen timeinfo = Ok false /\ market_hours timeinfo = true).
Proof.
  intros Hday Hsec. rewrite marketOpen_spec.
  assert ((0 <? tm_wday timeinfo)%Z && (tm_wday timeinfo <? 7)%Z = true) as ->.
  { apply andb_true_iff. split; apply Z.ltb_lt; lia. }
  unfold market_hours.
  assert ((1 <=? tm_wday timeinfo)%Z && (tm_wday timeinfo <=? 5)%Z = true) as ->.
  { apply andb_true_iff. split; apply Z.leb_le; lia. }
  unfold MARKET_OPEN_HR, MARKET_OPEN_MIN, MARKET_CLOSE_HR, MARKET_CLOSE_MIN.
  cbn [andb]. split.
  - intros Hne. f_equal. f_equal.
    + destruct (Z.ltb_spec (3600 * 9 + 60 * 30) (seconds_of_day timeinfo)),
        (Z.leb_spec (3600 * 9 + 60 * 30) (seconds_of_day timeinfo)); try done; lia.
    + apply Zltb_ext. unfold seconds_of_day. lia.
  - intros Heq. rewrite Heq. split; [done|].
    apply andb_true_iff. split; [by apply Z.leb_le|]. by apply Z.ltb_lt.
Qed.

Lemma marketOpen_weekday_agreement_witness :
  marketOpen monday_10h = Ok (market_hours monday_10h)
  /\ marketOpen monday_open = Ok false.
Proof.
  split.
  - destruct (marketOpen_weekday_agreement monday_10h) as (Hagree & _);
      [cbn; lia | cbn; lia |].
    apply Hagree. vm_compute. congruence.
  - destruct (marketOpen_weekday_agreement monday_open) as (_ & Hopen);
      [cbn; lia | cbn; lia |].
    apply Hopen. reflexivity.
Defined.

(** ** [chopDecimalPlaces] writes in place *)

(** X3.  [chopDecimalPlaces] keeps the size of the array and never makes
    the string longer; the only byte it can change is the one three
    places after the first decimal point, inside the string, and it
    becomes NUL. *)
Theorem chopDecimalPlaces_in_place (numStr : list ascii) :
  length (chopDecimalPlaces numStr) = length numStr
  /\ strlen (chopDecimalPlaces numStr) <= strlen numStr
  /\ (forall j,
        chopDecimalPlaces numStr !! j <> numStr !! j ->
        chopDecimalPlaces numStr !! j = Some NUL
        /\ j < strlen numStr
        /\ dot_index (c_str numStr) = Some (j - 3) /\ 3 <= j).
Proof.
  rewrite chopDecimalPlaces_spec.
  destruct (dot_index (c_str numStr)) as [d|]; [|done].
  case_decide as Hlt; [|done].
  split; [apply length_insert|].
  split; [rewrite strlen_insert_NUL by done; lia|].
  intros j Hj. destruct (decide (j = d + 3)) as [->|Hne].
  - pose proof (strlen_le numStr).
    rewrite list_lookup_insert_eq by lia.
    repeat split; [done| |lia]. f_equal. lia.
  - by rewrite list_lookup_insert_ne in Hj.
Qed.

Lemma chopDecimalPlaces_in_place_witness :
  chopDecimalPlaces (buffer_of (lit "123.456")) !! 6 = Some NUL
  /\ 6 < strlen (buffer_of (lit "123.456")).
Proof.
  destruct (chopDecimalPlaces_in_place (buffer_of (lit "123.456")))
    as (_ & _ & Hwrite).
  destruct (Hwrite 6) as (Hnul & Hin & _); [vm_compute; congruence|].
  split; [exact Hnul | exact Hin].
Defined.

(** ** [getQuote] and the quote array *)

Lemma getQuote_writes_one_entry stocks srv i quotes quotes' :
  getQuote stocks srv i quotes = Ok quotes' ->
  quotes' = quotes \/ exists text, quotes' = <[i := text]> quotes.
Proof.
  intros Hget. destruct (stocks !! i) as [symbol|] eqn:Hsym.
  2:{ by rewrite getQuote_no_symbol in Hget. }
  assert (Hi : i < stocksLen stocks) by (by eapply lookup_lt_Some).
  destruct (reachable srv) eqn:Hr.
  2:{ rewrite getQuote_unreachable in Hget by done. left. congruence. }
  destruct (findUntil (lit "200 OK") [LF] (response srv)) as [[] clientS] eqn:Hok.
  - destruct (decide (read_quoteData clientS = [])) as [Hd|Hd].
    { rewrite (getQuote_no_data _ _ _ _ clientS symbol) in Hget by done.
      left. congruence. }
    rewrite (getQuote_data _ _ _ _ clientS symbol) in Hget by done.
    destruct (scan_quote (read_quoteData clientS)) as [[price change]|];
      cbn in Hget; [|done].
    apply store_quote_Ok in Hget as [_ ->]. right. by eexists.
  - rewrite (getQuote_bad_status _ _ _ _ clientS symbol) in Hget by done.
    apply store_quote_Ok in Hget as [_ ->]. right. by eexists.
Qed.

(** X4.  Whatever the server sends, a call of [getQuote] for [index]
    that returns keeps the number of entries of [stocksQuotes] and leaves
    every entry other than [index] as it was. *)
Theorem getQuote_other_entries_kept (stocks : list (list ascii)) (srv : server)
    (i : nat) (quotes quotes' : list (list ascii)) :
  getQuote stocks srv i quotes = Ok quotes' ->
  length quotes' = length quotes
  /\ forall j, j <> i -> quotes' !! j = quotes !! j.
Proof.
  intros [->|[text ->]]%getQuote_writes_one_entry; [done|].
  split; [apply length_insert|].
  intros j Hj. by apply list_lookup_insert_ne.
Qed.

Lemma getQuote_other_entries_kept_witness :
  length [lit "MSFT 45.67 -1.23"; []; []; []] = length no_quotes
  /\ forall j, j <> 0 ->
       [lit "MSFT 45.67 -1.23"; []; []; []] !! j = no_quotes !! j.
Proof.
  apply (getQuote_other_entries_kept stocks_main page_with_quote 0).
  reflexivity.
Defined.

(** ** The scan for the two numbers *)

Lemma do_match_star cls s : do_match [Star cls] s = Some (run_length cls s).
Proof.
  cbn [do_match]. generalize (run_length cls s). intros n.
  destruct n; cbn; f_equal; lia.
Qed.

Lemma Match_star cls src index :
  Match [Star cls] src index =
    if decide (index <= length src)
    then Some (index, run_length cls (drop index src)) else None.
Proof.
  unfold Match. case_decide; [|done].
  destruct (drop index src) eqn:Hd; cbn [search]; by rewrite do_match_star.
Qed.

Lemma run_length_le cls s : run_length cls s <= length s.
Proof. induction s as [|c s IH]; cbn; [lia|]. destruct (singlematch cls c); cbn; lia. Qed.

Lemma run_length_Forall cls s :
  Forall (fun c => singlematch cls c = true) (take (run_length cls s) s).
Proof.
  induction s as [|c s IH]; cbn; [constructor|].
  destruct (singlematch cls c) eqn:Hc; cbn; [|constructor].
  by constructor.
Qed.

(** [scan_field] with a value pattern [cls*]: the run of [cls] after the
    key is copied if it has fewer than 16 characters. *)
Lemma scan_field_star key cls src :
  scan_field key [Star cls] src =
    let run := value_run key cls src in
    if decide (run < 16)
    then Ok (match Match key src 0 with
             | Some (MatchStart, MatchLength) =>
                 take run (drop (MatchStart + MatchLength) src)
             | None => []
             end ++ replicate (16 - run) NUL)
    else Undefined BufferOverflow.
Proof.
  unfold scan_field, value_run.
  destruct (Match key src 0) as [[start len]|]; [|done].
  rewrite Match_star. cbn zeta. case_decide as Hin; cbn.
  - done.
  - rewrite drop_ge by lia. done.
Qed.

Lemma strlen_app_NUL s rest : NUL ∉ s -> strlen (s ++ NUL :: rest) = length s.
Proof.
  intros Hs. induction s as [|c s IH]; cbn; [by rewrite decide_True|].
  rewrite decide_False by (intros ->; apply Hs; left).
  rewrite IH; [done|]. intros H. apply Hs. by right.
Qed.

Lemma c_str_padded s n :
  NUL ∉ s -> c_str (s ++ replicate (S n) NUL) = s.
Proof.
  intros Hs. unfold c_str. cbn [replicate].
  rewrite strlen_app_NUL by done. by rewrite take_app_length.
Qed.

Lemma value_text_spec key cls src :
  length (value_text key cls src) = value_run key cls src
  /\ Forall (fun c => singlematch cls c = true) (value_text key cls src).
Proof.
  unfold value_text, value_run. destruct (Match key src 0) as [[start len]|].
  - split; [|apply run_length_Forall].
    rewrite length_take. pose proof (run_length_le cls (drop (start + len) src)). lia.
  - split; [done|constructor].
Qed.

Lemma scan_field_star_Ok key cls src buf :
  singlematch cls NUL = false ->
  scan_field key [Star cls] src = Ok buf ->
  buf = value_text key cls src ++ replicate (16 - value_run key cls src) NUL
  /\ c_str buf = value_text key cls src
  /\ length buf = 16 /\ strlen buf < 16
  /\ length (c_str buf) = value_run key cls src
  /\ Forall (fun c => singlematch cls c = true) (c_str buf).
Proof.
  intros Hnul. rewrite scan_field_star. cbn zeta.
  case_decide as Hrun; [|done]. intros [= <-].
  destruct (value_text_spec key cls src) as [Hlen Hall].
  assert (match Match key src 0 with
          | Some (MatchStart, MatchLength) =>
              take (value_run key cls src) (drop (MatchStart + MatchLength) src)
          | None => []
          end = value_text key cls src) as ->.
  { unfold value_text, value_run. by destruct (Match key src 0) as [[start len]|]. }
  set (s := value_text key cls src) in *.
  set (run := value_run key cls src) in *.
  assert (Hno : NUL ∉ s).
  { intros Hin. rewrite Forall_forall in Hall. specialize (Hall _ Hin). congruence. }
  replace (16 - run) with (S (15 - run)) by lia.
  rewrite c_str_padded by done.
  split; [done|]. split; [done|].
  split; [rewrite length_app, length_replicate; lia|].
  split; [|done].
  rewrite <- length_c_str, c_str_padded by done. lia.
Qed.

(** X5.  The arrays [price] and [change] have 16 bytes.  The scan of the
    quote data is undefined exactly when the run of digits and dots
    after the price key, or the run of digits, dots and minus signs after
    the priceChange key, has 16 characters or more: [GetMatch] then
    writes past the array.  No other undefined behaviour occurs in the
    scan. *)
Theorem scan_quote_overflow (quoteData : list ascii) :
  let src := c_str (quoteData ++ [NUL]) in
  (scan_quote quoteData = Undefined BufferOverflow <->
   16 <= value_run price_key price_class src
   \/ 16 <= value_run priceChange_key change_class src)
  /\ (forall why, scan_quote quoteData = Undefined why -> why = BufferOverflow).
Proof.
  cbn zeta. unfold scan_quote.
  change price_value with [Star price_class].
  change change_value with [Star change_class].
  rewrite !scan_field_star. cbn zeta.
  set (src := c_str (quoteData ++ [NUL])).
  set (rp := value_run price_key price_class src).
  set (rc := value_run priceChange_key change_class src).
  destruct (decide (rp < 16)); destruct (decide (rc < 16));
    unfold mbind, outcome_bind.
  - split; [split; [done|lia]|done].
  - split; [split; [right; lia|done]|by intros ? [= <-]].
  - split; [split; [left; lia|done]|by intros ? [= <-]].
  - split; [split; [left; lia|done]|by intros ? [= <-]].
Qed.

Example getQuote_long_price :
  getQuote stocks_main page_with_long_price 0 no_quotes = Undefined BufferOverflow.
Proof. reflexivity. Qed.

(** X6.  When the scan returns, [price] and [change] are arrays of 16
    bytes that hold a terminated string of at most 15 characters, with
    NUL in every byte after it; the string of [price] is the whole run of
    digits and dots that follows the first match of the price key in the
    quote data, the string of [change] the whole run of digits, dots and
    minus signs that follows the first match of the priceChange key, and
    each is empty when its key is not found. *)
Theorem scan_quote_fields (quoteData price change : list ascii) :
  scan_quote quoteData = Ok (price, change) ->
  let src := c_str (quoteData ++ [NUL]) in
  (c_str price = value_text price_key price_class src
   /\ price = value_text price_key price_class src
              ++ replicate (16 - value_run price_key price_class src) NUL
   /\ length price = 16 /\ strlen price < 16
   /\ length (c_str price) = value_run price_key price_class src
   /\ Forall (fun c => singlematch price_class c = true) (c_str price)
   /\ (Match price_key src 0 = None -> c_str price = []))
  /\ (c_str change = value_text priceChange_key change_class src
      /\ change = value_text priceChange_key change_class src
                  ++ replicate (16 - value_run priceChange_key change_class src) NUL
      /\ length change = 16 /\ strlen change < 16
      /\ length (c_str change) = value_run priceChange_key change_class src
      /\ Forall (fun c => singlematch change_class c = true) (c_str change)
      /\ (Match priceChange_key src 0 = None -> c_str change = [])).
Proof.
  unfold scan_quote.
  change price_value with [Star price_class].
  change change_value with [Star change_class].
  set (src := c_str (quoteData ++ [NUL])).
  destruct (scan_field price_key [Star price_class] src) as [p|] eqn:Hp; [|done].
  destruct (scan_field priceChange_key [Star change_class] src) as [c|] eqn:Hc; [|done].
  unfold mbind, outcome_bind. intros [= <- <-].
  destruct (scan_field_star_Ok price_key price_class src p eq_refl Hp)
    as (Hp1 & Hp2 & Hp3 & Hp4 & Hp5 & Hp6).
  destruct (scan_field_star_Ok priceChange_key change_class src c eq_refl Hc)
    as (Hc1 & Hc2 & Hc3 & Hc4 & Hc5 & Hc6).
  split.
  - repeat split; try done. intros Hnone. rewrite Hp2. unfold value_text.
    by rewrite Hnone.
  - repeat split; try done. intros Hnone. rewrite Hc2. unfold value_text.
    by rewrite Hnone.
Qed.

Lemma scan_quote_fields_witness :
  c_str (replicate 16 NUL)
  = value_text price_key price_class (c_str (data_without_price ++ [NUL]))
  /\ c_str (buffer_of (lit "1.5") ++ replicate 12 NUL)
     = value_text priceChange_key change_class (c_str (data_without_price ++ [NUL])).
Proof.
  destruct (scan_quote_fields data_without_price (replicate 16 NUL)
              (buffer_of (lit "1.5") ++ replicate 12 NUL))
    as ((Hprice & _) & (Hchange & _)).
  - vm_compute. reflexivity.
  - split; [exact Hprice | exact Hchange].
Defined.

Example value_text_change :
  value_text priceChange_key change_class (c_str (data_without_price ++ [NUL]))
  = lit "1.5".
Proof. reflexivity. Qed.

(** ** The quote data read from the stream *)

Lemma readStringUntil_shorter terminator c rest :
  length (readStringUntil terminator (c :: rest)).2 <= length rest.
Proof.
  revert c. induction rest as [|c' rest IH]; intros c; cbn.
  - by case_decide.
  - case_decide; [done|]. specialize (IH c'). cbn in IH.
    destruct (decide (c' = terminator)); cbn in *; [lia|].
    destruct (readStringUntil terminator rest); cbn in *. lia.
Qed.

Lemma read_lines_step quoteData c rest line rest' :
  readStringUntil LF (c :: rest) = (line, rest') ->
  read_lines quoteData (c :: rest) =
    if startsWith (trim line) (lit "</div>") then quoteData
    else read_lines (quoteData ++ lit " " ++ trim line) rest'.
Proof.
  intros Hline. simp read_lines.
  destruct (inspect (readStringUntil LF (c :: rest))) as [[line0 rest0] Hread].
  assert (line0 = line /\ rest0 = rest') as [-> ->].
  { rewrite Hline in Hread. by injection Hread. }
  simp read_lines.
  by destruct (startsWith (trim line) (lit "</div>")).
Qed.

(** The loop only ever appends to [quoteData]. *)
Lemma read_lines_extends quoteData clientS :
  quoteData `prefix_of` read_lines quoteData clientS.
Proof.
  remember (length clientS) as n eqn:Hn. revert quoteData clientS Hn.
  induction n as [n IH] using lt_wf_ind. intros quoteData clientS ->.
  destruct clientS as [|c rest]; [by simp read_lines|].
  pose proof (readStringUntil_shorter LF c rest) as Hshort.
  destruct (readStringUntil LF (c :: rest)) as [line rest'] eqn:Hread.
  cbn [snd] in Hshort. rewrite (read_lines_step _ _ _ _ _ Hread).
  destruct (startsWith (trim line) (lit "</div>")); [done|].
  etrans; [|eapply (IH (length rest')); [cbn; lia|done]].
  by apply prefix_app_r.
Qed.

(** X7.  The quote data that [getQuote] collects after the status line
    is empty in exactly three cases: the marker is not in the stream;
    nothing follows the line of the marker; or the first line after it,
    trimmed, starts with the closing tag.  In every other case the data
    starts with a space followed by the trimmed first line, even when
    that line is blank. *)
Theorem read_quoteData_empty_iff (clientS : list ascii) :
  let found := (find structured_data clientS).1 in
  let body := (readStringUntil LF (find structured_data clientS).2).2 in
  let first := trim (readStringUntil LF body).1 in
  (read_quoteData clientS = [] <->
   found = false \/ body = [] \/ startsWith first (lit "</div>") = true)
  /\ (read_quoteData clientS <> [] ->
      (lit " " ++ first) `prefix_of` read_quoteData clientS).
Proof.
  cbn zeta. unfold read_quoteData.
  destruct (find structured_data clientS) as [found c1]. cbn [fst snd].
  destruct found.
  2:{ split; [split; [by left|done]|done]. }
  destruct (readStringUntil LF c1) as [junk body]. cbn [snd].
  destruct body as [|c rest].
  { simp read_lines. split; [split; [by right; left|done]|done]. }
  destruct (readStringUntil LF (c :: rest)) as [line rest'] eqn:Hread. cbn [fst].
  rewrite (read_lines_step _ _ _ _ _ Hread).
  destruct (startsWith (trim line) (lit "</div>")) eqn:Hdiv.
  { split; [split; [by right; right|done]|done]. }
  pose proof (read_lines_extends ([] ++ lit " " ++ trim line) rest') as Hpre.
  split; [|done]. split.
  - intros Hnil. rewrite Hnil in Hpre. by apply prefix_nil_inv in Hpre.
  - intros [?|[?|?]]; done.
Qed.

(** A page whose quote block holds one blank line. *)
Example getQuote_blank_block :
  getQuote stocks_main
    (mk_server true
       (http_ok ++ lit "<div " ++ attribute "class" "structured-data" ++ lit ">" ++ [LF]
        ++ lit "   " ++ [CR; LF] ++ lit "</div>" ++ [LF]))
    0 no_quotes
  = Ok [lit "MSFT  +"; []; []; []].
Proof. reflexivity. Qed.

Lemma read_quoteData_empty_iff_witness :
  let clientS := (findUntil (lit "200 OK") [LF] (response page_without_price)).2 in
  (lit " " ++ lit "<meta " ++ attribute "priceChange" "1.5" ++ lit " />")
    `prefix_of` read_quoteData clientS.
Proof.
  cbn zeta.
  destruct (read_quoteData_empty_iff
              (findUntil (lit "200 OK") [LF] (response page_without_price)).2)
    as (_ & Hdata).
  apply Hdata. vm_compute. congruence.
Defined.

(** ** The round robin of [TaskGetQuotes] *)

Lemma marketOpen_Undefined timeinfo why :
  marketOpen timeinfo = Undefined why -> why = UninitializedRead.
Proof.
  rewrite marketOpen_spec.
  destruct ((0 <? tm_wday timeinfo)%Z && (tm_wday timeinfo <? 7)%Z); [done|].
  by intros [= <-].
Qed.

Lemma scan_quote_Undefined quoteData why :
  scan_quote quoteData = Undefined why -> why = BufferOverflow.
Proof.
  unfold scan_quote.
  change price_value with [Star price_class].
  change change_value with [Star change_class].
  rewrite !scan_field_star. cbn zeta.
  repeat case_decide; unfold mbind, outcome_bind; try done; by intros [= <-].
Qed.

Lemma getQuote_Undefined stocks srv i quotes why :
  i < stocksLen stocks ->
  i < length quotes ->
  getQuote stocks srv i quotes = Undefined why -> why = BufferOverflow.
Proof.
  intros Hi Hin Hget. destruct (stocks !! i) as [symbol|] eqn:Hsym.
  2:{ apply lookup_ge_None in Hsym. unfold stocksLen in Hi. lia. }
  destruct (reachable srv) eqn:Hr.
  2:{ by rewrite getQuote_unreachable in Hget. }
  destruct (findUntil (lit "200 OK") [LF] (response srv)) as [[] clientS] eqn:Hok.
  2:{ rewrite (getQuote_bad_status _ _ _ _ clientS symbol) in Hget by done.
      by rewrite store_quote_in_bounds in Hget. }
  destruct (decide (read_quoteData clientS = [])) as [Hd|Hd].
  { by rewrite (getQuote_no_data _ _ _ _ clientS symbol) in Hget. }
  rewrite (getQuote_data _ _ _ _ clientS symbol) in Hget by done.
  destruct (scan_quote (read_quoteData clientS)) as [[price change]|why'] eqn:Hs;
    cbn in Hget.
  - by rewrite store_quote_in_bounds in Hget.
  - injection Hget as <-. by eapply scan_quote_Undefined.
Qed.

Lemma TaskGetQuotes_iter_Ok stocks timeinfo srv g i g' i' :
  i < stocksLen stocks ->
  TaskGetQuotes_iter stocks timeinfo srv g i = Ok (g', i') ->
  i' < stocksLen stocks
  /\ length (stocksQuotes g') = length (stocksQuotes g)
  /\ (forall j, j <> i -> stocksQuotes g' !! j = stocksQuotes g !! j)
  /\ (haveQuoteData g = true -> haveQuoteData g' = true).
Proof.
  intros Hi. unfold TaskGetQuotes_iter.
  destruct (marketOpen timeinfo) as [open|]; cbn; [|done].
  destruct (open || negb (haveQuoteData g)).
  2:{ intros [= <- <-]. done. }
  destruct (getQuote stocks srv i (stocksQuotes g)) as [quotes|] eqn:Hget; cbn; [|done].
  apply getQuote_writes_one_entry in Hget.
  assert (length quotes = length (stocksQuotes g)
          /\ forall j, j <> i -> quotes !! j = stocksQuotes g !! j) as [Hlen Hframe].
  { destruct Hget as [->|[text ->]]; [done|].
    split; [apply length_insert|]. intros j Hj. by apply list_lookup_insert_ne. }
  case_decide; intros [= <- <-]; cbn; repeat split; try done; lia.
Qed.

Lemma TaskGetQuotes_iter_Undefined stocks timeinfo srv g i why :
  i < stocksLen stocks ->
  length (stocksQuotes g) = stocksLen stocks ->
  TaskGetQuotes_iter stocks timeinfo srv g i = Undefined why ->
  why <> OutOfBounds.
Proof.
  intros Hi Hlen.
  assert (Hin : i < length (stocksQuotes g)) by lia.
  unfold TaskGetQuotes_iter.
  destruct (marketOpen timeinfo) as [open|why'] eqn:Hopen; cbn.
  2:{ intros [= <-]. by rewrite (marketOpen_Undefined _ _ Hopen). }
  destruct (open || negb (haveQuoteData g)); [|done].
  destruct (getQuote stocks srv i (stocksQuotes g)) as [quotes|why'] eqn:Hget; cbn.
  - by case_decide.
  - intros [= <-]. by rewrite (getQuote_Undefined _ _ _ _ _ Hi Hin Hget).
Qed.

(** X8.  Along any series of iterations of [TaskGetQuotes] that starts
    with [stocksIndex] below [stocksLen]: [stocksIndex] stays below
    [stocksLen], [stocksQuotes] keeps its number of entries, a
    [haveQuoteData] that is true stays true, and, [stocksQuotes] having
    one entry per symbol, [stocks] and [stocksQuotes] are never indexed
    out of bounds (the series can only become undefined through the
    Sunday read of [marketOpen] or an overflow of [price] or
    [change]). *)
Theorem TaskGetQuotes_run_in_bounds (stocks : list (list ascii))
    (env : list (tm * server)) (g : globals) (stocksIndex : nat) :
  stocksIndex < stocksLen stocks ->
  (forall g' i',
     TaskGetQuotes_run stocks env g stocksIndex = Ok (g', i') ->
     i' < stocksLen stocks
     /\ length (stocksQuotes g') = length (stocksQuotes g)
     /\ (haveQuoteData g = true -> haveQuoteData g' = true))
  /\ (length (stocksQuotes g) = stocksLen stocks ->
      forall why,
        TaskGetQuotes_run stocks env g stocksIndex = Undefined why ->
        why <> OutOfBounds).
Proof.
  revert g stocksIndex.
  induction env as [|[timeinfo srv] env IH]; intros g i Hi; cbn [TaskGetQuotes_run].
  { split; [|done]. by intros g' i' [= <- <-]. }
  destruct (TaskGetQuotes_iter stocks timeinfo srv g i) as [[g1 i1]|why1] eqn:Hiter; cbn.
  - destruct (TaskGetQuotes_iter_Ok _ _ _ _ _ _ _ Hi Hiter) as (Hi1 & Hlen & _ & Hhave).
    destruct (IH g1 i1 Hi1) as [HOk HUndef]. split.
    + intros g' i' Hrun. destruct (HOk g' i' Hrun) as (? & ? & ?).
      repeat split; [done|congruence|auto].
    + intros Hentries. apply HUndef. congruence.
  - split; [done|]. intros Hentries why [= <-].
    by eapply TaskGetQuotes_iter_Undefined.
Qed.

Lemma TaskGetQuotes_run_in_bounds_witness :
  1 < stocksLen stocks_main
  /\ length [[]; []; []; lit "GOOG 45.67 -1.23"] = length no_quotes.
Proof.
  destruct (TaskGetQuotes_run_in_bounds stocks_main
              [(monday_10h, page_with_quote); (monday_10h, unreachable_server)]
              (mk_globals no_quotes false) 3) as (Hin & _).
  - vm_compute. lia.
  - destruct (Hin (mk_globals [[]; []; []; lit "GOOG 45.67 -1.23"] true) 1)
      as (Hindex & Hlen & _); [reflexivity|].
    split; [exact Hindex | exact Hlen].
Defined.

Lemma TaskGetQuotes_pass_from stocks env g i :
  i < stocksLen stocks ->
  length env = stocksLen stocks - i ->
  haveQuoteData g = false ->
  Forall (fun e => (1 <= tm_wday e.1 <= 6)%Z /\ reachable e.2 = false) env ->
  TaskGetQuotes_run stocks env g i = Ok (mk_globals (stocksQuotes g) true, 0).
Proof.
  revert i. induction env as [|[timeinfo srv] env IH]; intros i Hi Hlen Hhave Henv;
    cbn in Hlen; [lia|].
  apply Forall_cons in Henv as [[Hday Hdown] Henv]. cbn [fst snd] in *.
  cbn [TaskGetQuotes_run]. unfold TaskGetQuotes_iter.
  rewrite marketOpen_spec.
  assert ((0 <? tm_wday timeinfo)%Z && (tm_wday timeinfo <? 7)%Z = true) as ->.
  { apply andb_true_iff. split; apply Z.ltb_lt; lia. }
  cbn. rewrite Hhave, orb_true_r, getQuote_unreachable by done. cbn.
  case_decide as Hwrap.
  - destruct env; [done|]. cbn in Hlen. lia.
  - destruct g as [quotes have]. cbn in *. subst have.
    apply (IH (i + 1)); [lia|lia|done|done].
Qed.

(** X9.  A first pass of [TaskGetQuotes] in which no connection can be
    made (one iteration per symbol, none on a Sunday) still ends with
    [haveQuoteData] set: [stocksQuotes] is as before the pass and
    [stocksIndex] is back at 0.  From then on an iteration that finds the
    market closed does not call [getQuote], whatever the server would
    answer. *)
Theorem TaskGetQuotes_pass_without_connection (stocks : list (list ascii))
    (env : list (tm * server)) (g : globals) :
  stocks <> [] ->
  length env = stocksLen stocks ->
  haveQuoteData g = false ->
  Forall (fun e => (1 <= tm_wday e.1 <= 6)%Z /\ reachable e.2 = false) env ->
  let after := mk_globals (stocksQuotes g) true in
  TaskGetQuotes_run stocks env g 0 = Ok (after, 0)
  /\ (forall timeinfo srv,
        marketOpen timeinfo = Ok false ->
        TaskGetQuotes_iter stocks timeinfo srv after 0 = Ok (after, 0)).
Proof.
  intros Hstocks Hlen Hhave Henv after. split.
  - apply TaskGetQuotes_pass_from; [|lia|done|done].
    unfold stocksLen. destruct stocks; [done|cbn; lia].
  - intros timeinfo srv Hclosed. unfold TaskGetQuotes_iter. rewrite Hclosed. done.
Qed.

Lemma TaskGetQuotes_pass_without_connection_witness :
  TaskGetQuotes_run stocks_main (replicate 4 (saturday_10h, unreachable_server))
    (mk_globals no_quotes false) 0
  = Ok (mk_globals no_quotes true, 0).
Proof.
  apply (TaskGetQuotes_pass_without_connection stocks_main
           (replicate 4 (saturday_10h, unreachable_server))
           (mk_globals no_quotes false)).
  - done.
  - reflexivity.
  - reflexivity.
  - repeat constructor; cbn; lia.
Defined.

(** ** The tape of [TaskDisplay] *)

Lemma load_displayText_spec quotes displayText have :
  (load_displayText quotes displayText have).1
  = displayText ++ concat (segment <$> quotes)
  /\ ((load_displayText quotes displayText have).2 = true <->
      have = true /\ Forall (fun quote => quote <> []) quotes).
Proof.
  revert displayText have.
  induction quotes as [|quote quotes IH]; intros displayText have.
  { cbn. rewrite app_nil_r. split; [done|]. split; [by intros ->|by intros [-> _]]. }
  cbn [load_displayText]. rewrite fmap_cons. cbn [concat].
  unfold segment at 1. case_decide as Hq.
  - destruct (IH (displayText ++ updatingMsg) false) as [-> ->].
    rewrite <- app_assoc. split; [done|]. split; [by intros [? _]|].
    intros [_ Hall]. apply Forall_cons in Hall as [Hne _].
    by destruct quote.
  - destruct (IH (displayText ++ quote ++ spacer) have) as [-> ->].
    rewrite <- !app_assoc. split; [done|]. split.
    + intros [-> Hall]. split; [done|]. constructor; [|done]. by intros ->.
    + intros [-> Hall]. apply Forall_cons in Hall as [_ Hall]. done.
Qed.

(** X10.  When [TaskDisplay] starts, the tape is the concatenation, in
    the order of [stocksQuotes], of one piece per entry (the updating
    message for an empty entry, the entry and the spacer otherwise), the
    quotes themselves are not touched, and [haveQuoteData] is true
    afterwards exactly when it was true before and no entry is empty.
    The first segment is the first entry with the spacer, also when that
    entry is empty. *)
Theorem TaskDisplay_init_tape (g : globals) :
  displayText (TaskDisplay_init g).2 = concat (segment <$> stocksQuotes g)
  /\ stocksQuotes (TaskDisplay_init g).1 = stocksQuotes g
  /\ (haveQuoteData (TaskDisplay_init g).1 = true <->
      haveQuoteData g = true /\ Forall (fun quote => quote <> []) (stocksQuotes g))
  /\ nextUp (TaskDisplay_init g).2 = quote_at (stocksQuotes g) 0 ++ spacer.
Proof.
  unfold TaskDisplay_init.
  pose proof (load_displayText_spec (stocksQuotes g) [] (haveQuoteData g)) as [Htext Hhave].
  destruct (load_displayText (stocksQuotes g) [] (haveQuoteData g)) as [text have].
  cbn in *. done.
Qed.

Lemma TaskDisplay_init_tape_witness :
  haveQuoteData (TaskDisplay_init (mk_globals quotes_without_price true)).1 = false.
Proof.
  destruct (TaskDisplay_init_tape (mk_globals quotes_without_price true))
    as (_ & _ & Hhave & _).
  destruct (haveQuoteData (TaskDisplay_init (mk_globals quotes_without_price true)).1);
    [|reflexivity].
  destruct Hhave as [Hhave _]. destruct (Hhave eq_refl) as [_ Hall].
  apply Forall_cons in Hall as [Hne _]. by destruct Hne.
Defined.

Section Tape.

Context (stocks : list (list ascii)).

(** The characters of the segment go onto the tape one by one. *)
Lemma TaskDisplay_run_tape env t t' :
  TaskDisplay_run stocks env t = Ok t' ->
  ticker_ok t ->
  nPos t + length env <= length (nextUp t) ->
  displayText t'
  = drop (length env)
      (displayText t ++ take (length env) (drop (nPos t) (nextUp t))).
Proof.
  revert t. induction env as [|[timeinfo quotes] env IH]; intros t Hrun Hok Hlen.
  { cbn in *. injection Hrun as <-. by rewrite app_nil_r. }
  cbn [TaskDisplay_run length] in *.
  destruct (TaskDisplay_tick stocks timeinfo quotes t) as [[t1 drawn]|] eqn:Htick;
    cbn [mbind outcome_bind] in Hrun; [|done].
  destruct (TaskDisplay_tick_Ok _ _ _ _ _ _ Htick) as (Htape & _ & Hok1 & _).
  destruct Hok as [Htext Hpos].
  assert (Hc : nextUp t !! nPos t = Some (charAt (nextUp t) (nPos t))).
  { unfold charAt. destruct (nextUp t !! nPos t) eqn:Hc; [done|].
    apply lookup_ge_None in Hc. lia. }
  rewrite (drop_S _ _ _ Hc). cbn [take].
  assert (Hdrop : forall k rest,
            drop (S k) (displayText t ++ charAt (nextUp t) (nPos t) :: rest)
            = drop k (displayText t1 ++ rest)).
  { intros k rest. rewrite Htape. destruct (displayText t) as [|a text]; [done|].
    cbn. by rewrite drop_0, <- app_assoc. }
  rewrite Hdrop.
  destruct env as [|e env'].
  { cbn in *. injection Hrun as <-. by rewrite app_nil_r. }
  rewrite TaskDisplay_tick_inside in Htick by (cbn in Hlen; lia).
  cbn zeta in Htick. apply Ok_pair_inv in Htick as [Ht1 _].
  rewrite (IH t1 Hrun).
  - subst t1. cbn [nPos nextUp displayText]. by rewrite Nat.add_1_r.
  - apply Hok1. done.
  - subst t1. cbn [nPos nextUp]. cbn in Hlen. cbn. lia.
Qed.

(** Exactly as many iterations as there are characters left, when the
    segment does not end on the turn of the banner: they return and the
    index has moved to the next quote, whatever the iterations found. *)
Lemma TaskDisplay_run_segment env t :
  displayText t <> [] ->
  nPos t < length (nextUp t) ->
  length env = length (nextUp t) - nPos t ->
  (quoteCnt t + 1) mod DISP_DATE_CNT <> 0 ->
  exists t',
    TaskDisplay_run stocks env t = Ok t'
    /\ index t' = (index t + 1) mod stocksLen stocks
    /\ quoteCnt t' = (quoteCnt t + 1) mod DISP_DATE_CNT
    /\ nPos t' = 0.
Proof.
  intros Htext Hpos Hlen Hcnt.
  destruct (exists_last (l:=env)) as (env' & [timeinfo quotes] & ->).
  { intros ->. cbn in Hlen. lia. }
  rewrite length_app in Hlen. cbn in Hlen.
  rewrite TaskDisplay_run_app, TaskDisplay_run_inside by (done || lia).
  cbn [mbind outcome_bind TaskDisplay_run].
  rewrite TaskDisplay_tick_rotate by (cbn [nPos nextUp quoteCnt]; (done || lia)).
  cbn zeta. cbn [mbind outcome_bind]. eexists. split; [done|]. done.
Qed.

(** X11.  In every state that the ticker reaches from its start, the
    characters of [nextUp] go onto the tape in order, none lost and none
    repeated: [k] iterations within the segment return, unless the last
    of them ends the segment on the turn of the date banner, and after
    them the tape is the old tape followed by the next [k] characters of
    [nextUp], with [k] characters dropped at the front; the index has
    moved to the next quote exactly if the segment has ended. *)
Theorem TaskDisplay_segment_fed_in_order (g : globals)
    (env0 env : list (tm * list (list ascii))) (t : ticker) :
  stocks <> [] ->
  length (stocksQuotes g) = stocksLen stocks ->
  TaskDisplay_run stocks env0 (TaskDisplay_init g).2 = Ok t ->
  nPos t + length env <= length (nextUp t) ->
  (nPos t + length env = length (nextUp t) ->
   (quoteCnt t + 1) mod DISP_DATE_CNT <> 0) ->
  exists t',
    TaskDisplay_run stocks env t = Ok t'
    /\ displayText t'
       = drop (length env)
           (displayText t ++ take (length env) (drop (nPos t) (nextUp t)))
    /\ length (displayText t') = length (displayText t)
    /\ index t' = (if decide (nPos t + length env = length (nextUp t))
                   then (index t + 1) mod stocksLen stocks else index t)
    /\ nPos t' = (if decide (nPos t + length env = length (nextUp t))
                  then 0 else nPos t + length env).
Proof.
  intros Hstocks Hentries Ht Hlen Hturn.
  assert (Hok : ticker_ok t).
  { destruct (TaskDisplay_run_Ok _ _ _ _ Ht) as [Hok _]. apply Hok.
    apply TaskDisplay_init_ok. intros Hnil. rewrite Hnil in Hentries.
    by destruct stocks. }
  assert (Hrun : exists t', TaskDisplay_run stocks env t = Ok t'
            /\ index t' = (if decide (nPos t + length env = length (nextUp t))
                           then (index t + 1) mod stocksLen stocks else index t)
            /\ nPos t' = (if decide (nPos t + length env = length (nextUp t))
                          then 0 else nPos t + length env)).
  { destruct Hok as [Htext Hpos]. case_decide as Hend.
    - destruct (TaskDisplay_run_segment env t) as (t' & Hrun & Hi & _ & Hp);
        [done | done | lia | auto |].
      by exists t'.
    - rewrite TaskDisplay_run_inside by (done || lia). by eexists. }
  destruct Hrun as (t' & Hrun & Hi & Hp). exists t'.
  split; [done|]. split; [by apply TaskDisplay_run_tape|].
  split; [|done].
  by destruct (TaskDisplay_run_Ok _ _ _ _ Hrun) as [[_ ?] _].
Qed.

(** X12.  In every state that the ticker reaches from its start,
    [index] is below [stocksLen] and [quoteCnt] below [DISP_DATE_CNT],
    and both count the same number of segment changes, one modulo
    [stocksLen] and one modulo [DISP_DATE_CNT].  A segment change whose
    new [quoteCnt] is not 0 returns, with the index moved on and the
    entry at the new index (or the updating message) as the next
    segment.  The segment change whose new [quoteCnt] is 0 is the turn of
    the date banner: it asks [strftime] for the banner and, with a month
    from January to December, overflows [dateTime].  When [stocksLen]
    divides [DISP_DATE_CNT], as with the four and the five symbols of the
    two sketches, [quoteCnt] is 0 only with [index] 0, so the turn of the
    banner always takes the turn of the first symbol. *)
Theorem TaskDisplay_counters (g : globals) (env0 : list (tm * list (list ascii)))
    (t : ticker) :
  stocks <> [] ->
  TaskDisplay_run stocks env0 (TaskDisplay_init g).2 = Ok t ->
  index t < stocksLen stocks
  /\ quoteCnt t < DISP_DATE_CNT
  /\ (exists n, index t = n mod stocksLen stocks /\ quoteCnt t = n mod DISP_DATE_CNT)
  /\ ((stocksLen stocks | DISP_DATE_CNT) -> quoteCnt t = 0 -> index t = 0)
  /\ (forall timeinfo quotes,
        nPos t + 1 = length (nextUp t) ->
        ((quoteCnt t + 1) mod DISP_DATE_CNT <> 0 ->
         exists t' drawn,
           TaskDisplay_tick stocks timeinfo quotes t = Ok (t', drawn)
           /\ index t' = (index t + 1) mod stocksLen stocks
           /\ quoteCnt t' = (quoteCnt t + 1) mod DISP_DATE_CNT
           /\ nextUp t' = segment (quote_at quotes (index t')))
        /\ ((quoteCnt t + 1) mod DISP_DATE_CNT = 0 ->
            ((stocksLen stocks | DISP_DATE_CNT) ->
             (index t + 1) mod stocksLen stocks = 0)
            /\ TaskDisplay_tick stocks timeinfo quotes t
               = (nextUp' ← strftime_dateTime timeinfo;
                  Ok (mk_ticker
                        (drop 1 (displayText t) ++ [charAt (nextUp t) (nPos t)])
                        0 ((index t + 1) mod stocksLen stocks) 0 nextUp',
                      take displayWidth
                        (drop 1 (displayText t) ++ [charAt (nextUp t) (nPos t)])))
            /\ ((0 <= tm_mon timeinfo < 12)%Z ->
                TaskDisplay_tick stocks timeinfo quotes t
                = Undefined BufferOverflow))).
Proof.
  intros Hstocks Ht.
  assert (Hlen : stocksLen stocks <> 0) by (unfold stocksLen; by destruct stocks).
  assert (Hn : exists n, index t = n mod stocksLen stocks
                         /\ quoteCnt t = n mod DISP_DATE_CNT).
  { destruct (TaskDisplay_run_Ok _ _ _ _ Ht) as [_ Hn]. apply Hn.
    exists 0. unfold TaskDisplay_init.
    destruct (load_displayText (stocksQuotes g) [] (haveQuoteData g)).
    cbn [snd index quoteCnt]. by rewrite !Nat.Div0.mod_0_l. }
  destruct Hn as [n [Hi Hc]].
  split; [rewrite Hi; by apply Nat.mod_upper_bound|].
  split; [rewrite Hc; by apply Nat.mod_upper_bound|].
  split; [by exists n|]. split.
  - intros Hdiv Hzero. rewrite Hi. rewrite Hc in Hzero.
    apply Nat.Lcm0.mod_divide. apply Nat.Lcm0.mod_divide in Hzero.
    by etrans.
  - intros timeinfo quotes Hend. split.
    + intros Hcnt. rewrite TaskDisplay_tick_rotate by done. cbn zeta.
      by eexists _, _.
    + intros Hcnt. split; [|split].
      * intros Hdiv. rewrite Hi, Nat.Div0.add_mod_idemp_l.
        rewrite Hc, Nat.Div0.add_mod_idemp_l in Hcnt.
        apply Nat.Lcm0.mod_divide. apply Nat.Lcm0.mod_divide in Hcnt.
        by etrans.
      * by rewrite TaskDisplay_tick_banner.
      * intros Hmon. rewrite TaskDisplay_tick_banner by done. cbn zeta.
        by rewrite strftime_dateTime_overflow.
Qed.

(** X13.  An entry that [getQuote] has marked Invalid Symbol (the status
    line lacked 200 OK) is not empty, so the ticker shows it like a
    quote: when it moves to that index on a turn that is not the turn of
    the banner, the next segment is Invalid Symbol followed by the
    spacer. *)
Theorem invalid_symbol_is_shown (srv : server) (i : nat)
    (quotes : list (list ascii)) (clientS : list ascii) (timeinfo : tm) (t : ticker) :
  i < stocksLen stocks ->
  reachable srv = true ->
  findUntil (lit "200 OK") [LF] (response srv) = (false, clientS) ->
  i < length quotes ->
  exists quotes',
    getQuote stocks srv i quotes = Ok quotes'
    /\ quotes' !! i = Some (lit "Invalid Symbol")
    /\ (nPos t + 1 = length (nextUp t) ->
        (quoteCnt t + 1) mod DISP_DATE_CNT <> 0 ->
        (index t + 1) mod stocksLen stocks = i ->
        exists t' drawn,
          TaskDisplay_tick stocks timeinfo quotes' t = Ok (t', drawn)
          /\ nextUp t' = lit "Invalid Symbol" ++ spacer).
Proof.
  intros Hsym Hr Hbad Hi.
  destruct (stocks !! i) as [symbol|] eqn:Hs.
  2:{ apply lookup_ge_None in Hs. unfold stocksLen in Hsym. lia. }
  eexists. split.
  { rewrite (getQuote_bad_status _ _ _ _ clientS symbol) by done.
    by apply store_quote_in_bounds. }
  split; [by apply list_lookup_insert_eq|].
  intros Hend Hcnt Hidx.
  rewrite TaskDisplay_tick_rotate by done. cbn zeta.
  eexists _, _. split; [done|]. cbn [nextUp]. rewrite Hidx.
  unfold quote_at. rewrite list_lookup_insert_eq by done. done.
Qed.

End Tape.

Lemma TaskDisplay_segment_fed_in_order_witness :
  exists t',
    TaskDisplay_run stocks_main
      [(monday_10h, quotes_without_price); (monday_10h, quotes_without_price)]
      (TaskDisplay_init (mk_globals quotes_without_price false)).2 = Ok t'
    /\ index t' = 1 /\ nPos t' = 0.
Proof.
  destruct (TaskDisplay_segment_fed_in_order stocks_main
              (mk_globals quotes_without_price false) []
              [(monday_10h, quotes_without_price); (monday_10h, quotes_without_price)]
              (TaskDisplay_init (mk_globals quotes_without_price false)).2)
    as (t' & Hrun & _ & _ & Hindex & Hpos).
  - done.
  - reflexivity.
  - reflexivity.
  - vm_compute. lia.
  - intros _. vm_compute. lia.
  - exists t'. split; [exact Hrun|]. split; [exact Hindex | exact Hpos].
Defined.

Lemma TaskDisplay_counters_witness :
  (3 + 1) mod stocksLen stocks_main = 0
  /\ TaskDisplay_tick stocks_main monday_10h no_quotes
       (mk_ticker
          (lit " " ++ updatingMsg ++ updatingMsg ++ updatingMsg ++ take 22 updatingMsg)
          19 3 22 updatingMsg)
     = Undefined BufferOverflow.
Proof.
  destruct (TaskDisplay_counters stocks_main (mk_globals no_quotes false) before_banner
              (mk_ticker
                 (lit " " ++ updatingMsg ++ updatingMsg ++ updatingMsg
                  ++ take 22 updatingMsg) 19 3 22 updatingMsg))
    as (_ & _ & _ & _ & Hchange).
  - done.
  - apply TaskDisplay_run_before_banner.
  - destruct (Hchange monday_10h no_quotes) as (_ & Hbanner); [reflexivity|].
    destruct Hbanner as (Hfirst & _ & Hoverflow); [reflexivity|].
    split.
    + apply Hfirst. exists 5. reflexivity.
    + apply Hoverflow. cbn. lia.
Defined.

Lemma invalid_symbol_is_shown_witness :
  exists quotes',
    getQuote stocks_main page_not_found 1 no_quotes = Ok quotes'
    /\ quotes' !! 1 = Some (lit "Invalid Symbol")
    /\ exists t' drawn,
         TaskDisplay_tick stocks_main monday_10h quotes'
           (mk_ticker (lit "x") 0 0 1 spacer) = Ok (t', drawn)
         /\ nextUp t' = lit "Invalid Symbol" ++ spacer.
Proof.
  destruct (invalid_symbol_is_shown stocks_main page_not_found 1 no_quotes
              ([CR; LF] ++ lit "200 OK") monday_10h
              (mk_ticker (lit "x") 0 0 1 spacer))
    as (quotes' & Hget & Hentry & Hshown).
  - vm_compute. lia.
  - reflexivity.
  - vm_compute. reflexivity.
  - vm_compute. lia.
  - exists quotes'. split; [exact Hget|]. split; [exact Hentry|].
    apply Hshown; [reflexivity | vm_compute; lia | reflexivity].
Defined.

(** ** The date banner *)

(** X14.  For every month from January to December the text of the
    date banner has at least 31 characters, whatever the other fields
    are; with its terminating NUL it never fits the 30 bytes of the array
    [dateTime] that [strftime] is given (with a limit of 80). *)
Theorem strftime_banner_length (timeinfo : tm) :
  (0 <= tm_mon timeinfo < 12)%Z ->
  31 <= length (strftime_banner timeinfo)
  /\ 30 < length (strftime_banner timeinfo ++ [NUL]).
Proof.
  intros Hmon.
  assert (31 <= length (strftime_banner timeinfo));
    [|rewrite length_app; cbn [length]; lia].
  unfold strftime_banner. rewrite !length_app.
  pose proof (length_dec (1900 + tm_year timeinfo)).
  pose proof (length_month_name (Z.to_nat (tm_mon timeinfo))) as Hname.
  assert (length (if (tm_hour timeinfo <? 12)%Z then lit "AM" else lit "PM") = 2)
    as -> by (by destruct (tm_hour timeinfo <? 12)%Z).
  cbn [dec2 length lit String.list_ascii_of_string]. lia.
Qed.

Lemma strftime_banner_length_witness :
  31 <= length (strftime_banner monday_10h)
  /\ 30 < length (strftime_banner monday_10h ++ [NUL]).
Proof. apply strftime_banner_length. cbn. lia. Defined.

Example strftime_banner_monday :
  strftime_banner monday_10h = lit " ... November, 02 2026  10:00 AM ...   ".
Proof. reflexivity. Qed.

(** ** Suspending and resuming *)

Lemma count_call_iter c timeinfo displayOn :
  count_call c [(TaskControl_iter timeinfo displayOn).1]
  = if decide (active timeinfo = displayOn) then 0
    else count_call c [if active timeinfo then resume_calls else suspend_calls].
Proof. rewrite TaskControl_iter_spec. cbn [fst]. by case_decide. Qed.

(** Evaluates the counts of calls in closed lists of the goal. *)
Ltac count_closed_calls :=
  repeat match goal with
         | |- context [count_call ?c [?calls]] =>
             let n := eval vm_compute in (count_call c [calls]) in
             change (count_call c [calls]) with n
         end.

(** X15.  Over any series of iterations of [TaskControl], and so at
    every point of it, the calls for each task alternate: the task has
    been suspended once more often than resumed while [displayOn] is
    false, and as often while it is true; the display is cleared once per
    suspension; and [displayOn] ends as the region of the last
    iteration. *)
Theorem TaskControl_calls_balanced (times : list tm) (displayOn : bool) (h : task) :
  let calls := (TaskControl_run times displayOn).1 in
  let final := (TaskControl_run times displayOn).2 in
  count_call (vTaskSuspend h) calls + suspended displayOn
  = count_call (vTaskResume h) calls + suspended final
  /\ count_call display_clear calls = count_call (vTaskSuspend h) calls
  /\ final = from_option active displayOn (last times).
Proof.
  cbn zeta. revert displayOn.
  induction times as [|t times IH]; intros displayOn; [done|].
  cbn [TaskControl_run]. rewrite TaskControl_iter_spec.
  specialize (IH (active t)).
  destruct (TaskControl_run times (active t)) as [later final]. cbn [fst snd] in *.
  destruct IH as (Hbal & Hclear & Hfinal).
  rewrite !(count_call_cons _ _ later).
  split; [|split].
  - destruct (active t), displayOn, h; count_closed_calls; cbn in *; lia.
  - rewrite Hclear.
    destruct (active t), displayOn, h; count_closed_calls; lia.
  - rewrite Hfinal. destruct times as [|t0 times]; [done|].
    rewrite last_cons_cons.
    destruct (last (t0 :: times)) eqn:Hlast; [done|].
    by apply last_None in Hlast.
Qed.

(** ** The polling [TaskGetQuotes] of [ticker.ino.ino] *)

(** X16.  Whenever the polling task finds its interval elapsed, it does
    to [stocksQuotes], [haveQuoteData] and [stocksIndex] exactly what the
    sleeping task of [StockTicker.ino] does in one iteration, and it is
    undefined in the same cases. *)
Theorem TaskGetQuotes_poll_agrees (stocks : list (list ascii)) (millis1 millis2 : Z)
    (timeinfo : tm) (srv : server) (g : globals) (stocksIndex : nat)
    (lastUpdateTime : Z) :
  (to_u32 (lastUpdateTime + intervalUpdate_poll) <? millis1)%Z = true ->
  match TaskGetQuotes_iter stocks timeinfo srv g stocksIndex,
        TaskGetQuotes_poll_iter stocks millis1 millis2 timeinfo srv g stocksIndex
          lastUpdateTime with
  | Ok (g1, i1), Ok (g2, i2, _) => g1 = g2 /\ i1 = i2
  | Undefined why1, Undefined why2 => why1 = why2
  | _, _ => False
  end.
Proof.
  intros Hdue. unfold TaskGetQuotes_iter, TaskGetQuotes_poll_iter. rewrite Hdue.
  destruct (marketOpen timeinfo) as [open|]; cbn; [|done].
  destruct (open || negb (haveQuoteData g)); [|done].
  destruct (getQuote stocks srv stocksIndex (stocksQuotes g)); cbn; [|done].
  by case_decide.
Qed.

Lemma TaskGetQuotes_poll_agrees_witness :
  match TaskGetQuotes_iter stocks_main monday_10h page_with_quote
          (mk_globals no_quotes false) 3,
        TaskGetQuotes_poll_iter stocks_main 1 2 monday_10h page_with_quote
          (mk_globals no_quotes false) 3 (-120000) with
  | Ok (g1, i1), Ok (g2, i2, _) => g1 = g2 /\ i1 = i2
  | Undefined why1, Undefined why2 => why1 = why2
  | _, _ => False
  end.
Proof. apply TaskGetQuotes_poll_agrees. reflexivity. Defined.

(** X17.  The timing of the polling task.  An iteration that does not
    find the interval elapsed changes nothing and does not ask
    [marketOpen], so it is defined on a Sunday too.  An iteration that
    fetches a symbol other than the last one keeps [lastUpdateTime], so
    the next iteration fetches as well.  Once a reading [millis2] below
    2^31 - 120000 has been stored in [lastUpdateTime], every iteration
    that reads at most [millis2 + 120000] changes nothing. *)
Theorem TaskGetQuotes_poll_timing (stocks : list (list ascii)) (millis1 millis2 : Z)
    (timeinfo : tm) (srv : server) (g : globals) (stocksIndex : nat)
    (lastUpdateTime : Z) :
  ((to_u32 (lastUpdateTime + intervalUpdate_poll) <? millis1)%Z = false ->
   TaskGetQuotes_poll_iter stocks millis1 millis2 timeinfo srv g stocksIndex
     lastUpdateTime
   = Ok (g, stocksIndex, lastUpdateTime))
  /\ (forall open quotes,
        (to_u32 (lastUpdateTime + intervalUpdate_poll) <? millis1)%Z = true ->
        marketOpen timeinfo = Ok open ->
        open || negb (haveQuoteData g) = true ->
        getQuote stocks srv stocksIndex (stocksQuotes g) = Ok quotes ->
        stocksIndex + 1 <> stocksLen stocks ->
        TaskGetQuotes_poll_iter stocks millis1 millis2 timeinfo srv g stocksIndex
          lastUpdateTime
        = Ok (mk_globals quotes (haveQuoteData g), stocksIndex + 1, lastUpdateTime))
  /\ (forall stored millis3,
        (0 <= stored < 2 ^ 31 - 120000)%Z ->
        (millis1 <= stored + 120000)%Z ->
        TaskGetQuotes_poll_iter stocks millis1 millis3 timeinfo srv g stocksIndex
          (to_i32 stored)
        = Ok (g, stocksIndex, to_i32 stored)).
Proof.
  split; [|split].
  - intros Hidle. unfold TaskGetQuotes_poll_iter. by rewrite Hidle.
  - intros open quotes Hdue Hopen Hfetch Hget Hmid.
    unfold TaskGetQuotes_poll_iter. rewrite Hdue, Hopen. cbn.
    rewrite Hfetch, Hget. cbn. by rewrite decide_False.
  - intros stored millis3 Hstored Hearly. unfold TaskGetQuotes_poll_iter.
    assert (to_i32 stored = stored) as ->.
    { unfold to_i32. rewrite Z.mod_small; lia. }
    assert ((to_u32 (stored + intervalUpdate_poll) <? millis1)%Z = false) as ->; [|done].
    apply Z.ltb_ge. unfold to_u32, intervalUpdate_poll. rewrite Z.mod_small; lia.
Qed.

Lemma TaskGetQuotes_poll_timing_witness :
  TaskGetQuotes_poll_iter stocks_main 130000 130001 sunday_noon page_with_quote
    (mk_globals no_quotes false) 0 (to_i32 10000)
  = Ok (mk_globals no_quotes false, 0, to_i32 10000).
Proof.
  destruct (TaskGetQuotes_poll_timing stocks_main 130000 130001 sunday_noon
              page_with_quote (mk_globals no_quotes false) 0 0) as (_ & _ & Hwait).
  apply Hwait; lia.
Defined.

(** ** Fetching the same page again *)

(** X18.  What [getQuote] writes does not depend on what the entry held:
    a second call for the same index that gets the same answer from the
    server returns the array that the first call returned. *)
Theorem getQuote_same_page_again (stocks : list (list ascii)) (srv : server)
    (i : nat) (quotes quotes' : list (list ascii)) :
  getQuote stocks srv i quotes = Ok quotes' ->
  getQuote stocks srv i quotes' = Ok quotes'.
Proof.
  intros Hget. destruct (stocks !! i) as [symbol|] eqn:Hsym.
  2:{ by rewrite getQuote_no_symbol in Hget. }
  assert (Hi : i < stocksLen stocks) by (by eapply lookup_lt_Some).
  destruct (reachable srv) eqn:Hr.
  2:{ rewrite getQuote_unreachable in Hget by done.
      by rewrite getQuote_unreachable. }
  destruct (findUntil (lit "200 OK") [LF] (response srv)) as [[] clientS] eqn:Hok.
  - destruct (decide (read_quoteData clientS = [])) as [Hd|Hd].
    { rewrite (getQuote_no_data _ _ _ _ clientS symbol) in Hget by done.
      by rewrite (getQuote_no_data _ _ _ _ clientS symbol). }
    rewrite (getQuote_data _ _ _ _ clientS symbol) in Hget by done.
    rewrite (getQuote_data _ _ _ _ clientS symbol) by done.
    destruct (scan_quote (read_quoteData clientS)) as [[price change]|];
      cbn in *; [|done].
    apply store_quote_Ok in Hget as [Hin ->].
    rewrite store_quote_in_bounds by (by rewrite length_insert).
    by rewrite list_insert_insert_eq.
  - rewrite (getQuote_bad_status _ _ _ _ clientS symbol) in Hget by done.
    rewrite (getQuote_bad_status _ _ _ _ clientS symbol) by done.
    apply store_quote_Ok in Hget as [Hin ->].
    rewrite store_quote_in_bounds by (by rewrite length_insert).
    by rewrite list_insert_insert_eq.
Qed.

Lemma getQuote_same_page_again_witness :
  getQuote stocks_main page_with_quote 0 [lit "MSFT 45.67 -1.23"; []; []; []]
  = Ok [lit "MSFT 45.67 -1.23"; []; []; []].
Proof.
  apply (getQuote_same_page_again stocks_main page_with_quote 0 no_quotes).
  reflexivity.
Defined.
